(** * Real-time order tracking: client session, aggregator and SSE broadcaster

    A shallow embedding of
    - [src/hooks/use-real-time-tracking.ts]: the hooks [useRealTimeTracking]
      and [useMultipleOrderTracking];
    - the orders stream route ([GET] and [emitOrderEvent]).

    React state, refs, the browser's EventSource objects and its timer table
    are threaded explicitly through a small state-and-writer monad; every
    call that leaves the hook (toasts, callbacks, constructing or closing an
    EventSource, setTimeout and clearTimeout) is recorded as an [Effect]. *)

From stdpp Require Import gmap strings list pretty sorting.
From Stdlib Require Import ZArith.

Open Scope string_scope.
Open Scope list_scope.

(** JavaScript truthiness of an optional string: [undefined] and the empty
    string are falsy. *)
Definition truthy (s : option string) : bool :=
  match s with
  | Some v => negb (String.eqb v "")
  | None => false
  end.

Module Tracking.

(** ** Data model (interfaces of the hook file) *)

Record TrackingHistoryEntry := {
  th_status : string;
  th_location : string;
  th_timestamp : string;
  th_remarks : option string
}.

Record LiveTracking := {
  lt_status : string;
  currentLocation : option string;
  estimatedDelivery : option string;
  trackingHistory : option (list TrackingHistoryEntry)
}.

Record RealTimeTrackingData := {
  orderId : string;
  orderNumber : string;
  status : string;
  trackingNumber : option string;
  carrier : option string;
  liveTracking : option LiveTracking;
  lastUpdated : string;
  hasNewUpdate : bool
}.

(** The [data] of a [status_change] event: the handler reads its [message]. *)
Record StatusData := { sd_message : option string }.

(** [TrackingEvent], keyed by its [type]; [data] and [message] are optional
    in the interface.  [EvUnknown] is any other [type] string, which falls
    to the [default] case of the switch. *)
Inductive TrackingEvent :=
| EvConnected (message : option string)
| EvTrackingUpdate (data : option RealTimeTrackingData)
| EvStatusChange (data : option StatusData)
| EvHeartbeat
| EvError (message : option string)
| EvOrderUpdate
| EvUnknown (type : string).

(** [useRealTimeTracking(orderId, trackingNumber, options)]; the three
    callbacks are optional, here: present or not.  [reconnectInterval] is a
    whole number of milliseconds. *)
Record Config := {
  cfg_orderId : option string;
  cfg_trackingNumber : option string;
  enableNotifications : bool;
  enableToasts : bool;
  autoReconnect : bool;
  reconnectInterval : Z;
  onStatusChange : bool;
  onTrackingUpdate : bool;
  onConnectionChange : bool
}.

Definition maxReconnectAttempts : nat := 5.

(** ** The browser side *)

Inductive ReadyState := CONNECTING | OPEN | CLOSED.

Inductive Permission := PermDefault | PermGranted | PermDenied.

(** What a pending timer runs when it fires. *)
Inductive TimerCallback :=
| ReconnectCb            (* the closure scheduled by [onerror] *)
| ConnectCb              (* [setTimeout(connect, 1000)] of [reconnect] *)
| CloseNotificationCb.   (* auto close of a system notification *)

Inductive ToastLevel := ToastSuccess | ToastInfo | ToastError.

Inductive Effect :=
| NewEventSource (id : nat) (params : list (string * string))
| CloseEventSource (id : nat)
| SetTimeout (tid : nat) (cb : TimerCallback) (delay : Z)
| ClearTimeout (tid : nat)
| Toast (level : ToastLevel) (msg : string)
| SystemNotification (title : string) (body : option string)
| RequestPermission
| CallConnectionChange (connected : bool)
| CallTrackingUpdate (data : option RealTimeTrackingData)
| CallStatusChange (data : option StatusData).

(** One mounted hook instance together with the browser objects it created:
    [useState] cells, [useRef] cells, every EventSource constructed so far
    (its id is its index in [sources]) and the pending timers. *)
Record World := {
  trackingData : option RealTimeTrackingData;
  isConnected : bool;
  error : option string;
  lastUpdate : option Z;
  eventSourceRef : option nat;
  reconnectTimeoutRef : option nat;
  reconnectAttempts : nat;
  sources : list ReadyState;
  timers : gmap nat (TimerCallback * Z);
  nextTimer : nat;
  notificationSupported : bool;
  permission : Permission
}.

Definition set_trackingData v (w : World) : World :=
  {| trackingData := v; isConnected := isConnected w; error := error w;
     lastUpdate := lastUpdate w; eventSourceRef := eventSourceRef w;
     reconnectTimeoutRef := reconnectTimeoutRef w;
     reconnectAttempts := reconnectAttempts w; sources := sources w;
     timers := timers w; nextTimer := nextTimer w;
     notificationSupported := notificationSupported w;
     permission := permission w |}.

Definition set_isConnected v (w : World) : World :=
  {| trackingData := trackingData w; isConnected := v; error := error w;
     lastUpdate := lastUpdate w; eventSourceRef := eventSourceRef w;
     reconnectTimeoutRef := reconnectTimeoutRef w;
     reconnectAttempts := reconnectAttempts w; sources := sources w;
     timers := timers w; nextTimer := nextTimer w;
     notificationSupported := notificationSupported w;
     permission := permission w |}.

Definition set_error v (w : World) : World :=
  {| trackingData := trackingData w; isConnected := isConnected w; error := v;
     lastUpdate := lastUpdate w; eventSourceRef := eventSourceRef w;
     reconnectTimeoutRef := reconnectTimeoutRef w;
     reconnectAttempts := reconnectAttempts w; sources := sources w;
     timers := timers w; nextTimer := nextTimer w;
     notificationSupported := notificationSupported w;
     permission := permission w |}.

Definition set_lastUpdate v (w : World) : World :=
  {| trackingData := trackingData w; isConnected := isConnected w;
     error := error w; lastUpdate := v; eventSourceRef := eventSourceRef w;
     reconnectTimeoutRef := reconnectTimeoutRef w;
     reconnectAttempts := reconnectAttempts w; sources := sources w;
     timers := timers w; nextTimer := nextTimer w;
     notificationSupported := notificationSupported w;
     permission := permission w |}.

Definition set_eventSourceRef v (w : World) : World :=
  {| trackingData := trackingData w; isConnected := isConnected w;
     error := error w; lastUpdate := lastUpdate w; eventSourceRef := v;
     reconnectTimeoutRef := reconnectTimeoutRef w;
     reconnectAttempts := reconnectAttempts w; sources := sources w;
     timers := timers w; nextTimer := nextTimer w;
     notificationSupported := notificationSupported w;
     permission := permission w |}.

Definition set_reconnectTimeoutRef v (w : World) : World :=
  {| trackingData := trackingData w; isConnected := isConnected w;
     error := error w; lastUpdate := lastUpdate w;
     eventSourceRef := eventSourceRef w; reconnectTimeoutRef := v;
     reconnectAttempts := reconnectAttempts w; sources := sources w;
     timers := timers w; nextTimer := nextTimer w;
     notificationSupported := notificationSupported w;
     permission := permission w |}.

Definition set_reconnectAttempts v (w : World) : World :=
  {| trackingData := trackingData w; isConnected := isConnected w;
     error := error w; lastUpdate := lastUpdate w;
     eventSourceRef := eventSourceRef w;
     reconnectTimeoutRef := reconnectTimeoutRef w;
     reconnectAttempts := v; sources := sources w;
     timers := timers w; nextTimer := nextTimer w;
     notificationSupported := notificationSupported w;
     permission := permission w |}.

Definition set_sources v (w : World) : World :=
  {| trackingData := trackingData w; isConnected := isConnected w;
     error := error w; lastUpdate := lastUpdate w;
     eventSourceRef := eventSourceRef w;
     reconnectTimeoutRef := reconnectTimeoutRef w;
     reconnectAttempts := reconnectAttempts w; sources := v;
     timers := timers w; nextTimer := nextTimer w;
     notificationSupported := notificationSupported w;
     permission := permission w |}.

Definition set_timers v n (w : World) : World :=
  {| trackingData := trackingData w; isConnected := isConnected w;
     error := error w; lastUpdate := lastUpdate w;
     eventSourceRef := eventSourceRef w;
     reconnectTimeoutRef := reconnectTimeoutRef w;
     reconnectAttempts := reconnectAttempts w; sources := sources w;
     timers := v; nextTimer := n;
     notificationSupported := notificationSupported w;
     permission := permission w |}.

Definition set_permission v (w : World) : World :=
  {| trackingData := trackingData w; isConnected := isConnected w;
     error := error w; lastUpdate := lastUpdate w;
     eventSourceRef := eventSourceRef w;
     reconnectTimeoutRef := reconnectTimeoutRef w;
     reconnectAttempts := reconnectAttempts w; sources := sources w;
     timers := timers w; nextTimer := nextTimer w;
     notificationSupported := notificationSupported w;
     permission := v |}.

(** A freshly mounted hook: the initial values of [useState] and [useRef].
    Browser timer handles are positive, so a stored handle is always truthy. *)
Definition initial (supported : bool) (perm : Permission) : World :=
  {| trackingData := None; isConnected := false; error := None;
     lastUpdate := None; eventSourceRef := None; reconnectTimeoutRef := None;
     reconnectAttempts := 0; sources := []; timers := ∅; nextTimer := 1;
     notificationSupported := supported; permission := perm |}.

(** ** State-and-writer monad *)

Definition M (A : Type) : Type := World → A * World * list Effect.

Definition ret {A} (a : A) : M A := λ w, (a, w, []).

Definition bind {A B} (m : M A) (k : A → M B) : M B :=
  λ w, let '(a, w1, e1) := m w in
       let '(b, w2, e2) := k a w1 in
       (b, w2, e1 ++ e2).

#[global] Instance M_ret : MRet M := @ret.
#[global] Instance M_bind : MBind M := λ A B k m, bind m k.

Definition get : M World := λ w, (w, w, []).
Definition modify (f : World → World) : M unit := λ w, (tt, f w, []).
Definition emit (e : Effect) : M unit := λ w, (tt, w, [e]).
Definition when (b : bool) (m : M unit) : M unit := if b then m else ret tt.

Definition world_of {A} (r : A * World * list Effect) : World := r.1.2.
Definition effects_of {A} (r : A * World * list Effect) : list Effect := r.2.

(** ** Browser primitives *)

Definition setTimeout (cb : TimerCallback) (delay : Z) : M nat :=
  λ w, let tid := nextTimer w in
       (tid, set_timers (<[tid := (cb, delay)]> (timers w)) (S tid) w,
        [SetTimeout tid cb delay]).

Definition clearTimeout (tid : nat) : M unit :=
  λ w, (tt, set_timers (delete tid (timers w)) (nextTimer w) w,
        [ClearTimeout tid]).

(** [new EventSource(url)]: the new object starts in [CONNECTING]. *)
Definition newEventSource (params : list (string * string)) : M nat :=
  λ w, let id := length (sources w) in
       (id, set_sources (sources w ++ [CONNECTING]) w,
        [NewEventSource id params]).

(** [eventSource.close()] *)
Definition closeEventSource (id : nat) : M unit :=
  λ w, (tt, set_sources (<[id := CLOSED]> (sources w)) w,
        [CloseEventSource id]).

Definition granted (p : Permission) : bool :=
  match p with PermGranted => true | _ => false end.

Definition is_default (p : Permission) : bool :=
  match p with PermDefault => true | _ => false end.

(** A value interpolated into a template string. *)
Definition interpolate (s : option string) : string :=
  from_option id "undefined" s.

(** [a || b] on an optional string. *)
Definition or_else (a : option string) (b : string) : string :=
  if truthy a then interpolate a else b.

(** ** useRealTimeTracking *)

(** [requestNotificationPermission]: the call to
    [Notification.requestPermission()]; its answer arrives later, see
    [permissionAnswered]. *)
Definition requestNotificationPermission (cfg : Config) : M unit :=
  w ← get;
  when (notificationSupported w && enableNotifications cfg
        && is_default (permission w))
       (emit RequestPermission).

Definition permissionAnswered (cfg : Config) (p : Permission) : M unit :=
  modify (set_permission p);;
  when (granted p && enableToasts cfg)
       (emit (Toast ToastSuccess "Notifications enabled for order updates")).

Definition showNotification (cfg : Config) (title : string)
    (body : option string) : M unit :=
  if negb (enableNotifications cfg) then mret tt
  else
    w ← get;
    if notificationSupported w && granted (permission w) then
      emit (SystemNotification title body);;
      _ ← setTimeout CloseNotificationCb 5000;
      mret tt
    else
      when (enableToasts cfg)
           (emit (Toast ToastSuccess (title +:+ ": " +:+ interpolate body))).

Definition connect (cfg : Config) : M unit :=
  if negb (truthy (cfg_orderId cfg)) && negb (truthy (cfg_trackingNumber cfg))
  then modify (set_error (Some "Order ID or tracking number is required"))
  else
    let params :=
      (if truthy (cfg_orderId cfg)
       then [("orderId", interpolate (cfg_orderId cfg))] else [])
      ++ (if truthy (cfg_trackingNumber cfg)
          then [("trackingNumber", interpolate (cfg_trackingNumber cfg))]
          else []) in
    eventSource ← newEventSource params;
    modify (set_eventSourceRef (Some eventSource)).

Definition disconnect (cfg : Config) : M unit :=
  w ← get;
  match eventSourceRef w with
  | Some es => closeEventSource es;; modify (set_eventSourceRef None)
  | None => mret tt
  end;;
  w ← get;
  match reconnectTimeoutRef w with
  | Some tid => clearTimeout tid;; modify (set_reconnectTimeoutRef None)
  | None => mret tt
  end;;
  modify (set_isConnected false);;
  when (onConnectionChange cfg) (emit (CallConnectionChange false)).

(** [eventSource.onopen] *)
Definition onopen (cfg : Config) : M unit :=
  modify (set_isConnected true);;
  modify (set_error None);;
  modify (set_reconnectAttempts 0);;
  when (onConnectionChange cfg) (emit (CallConnectionChange true));;
  when (enableToasts cfg) (emit (Toast ToastSuccess "Live tracking connected")).

(** [eventSource.onmessage]: [parsed] is the result of [JSON.parse]
    ([None] when it throws), [now] is the reading of [new Date()].  An
    exception inside the [try] block ends the handler; what ran before it
    stays. *)
Definition onmessage (cfg : Config) (parsed : option TrackingEvent)
    (now : Z) : M unit :=
  match parsed with
  | None => mret tt
  | Some (EvConnected _) => mret tt
  | Some (EvTrackingUpdate updateData) =>
      modify (set_trackingData updateData);;
      modify (set_lastUpdate (Some now));;
      when (onTrackingUpdate cfg) (emit (CallTrackingUpdate updateData));;
      match updateData with
      | Some d =>
          when (hasNewUpdate d && enableToasts cfg)
               (emit (Toast ToastInfo
                        ("Tracking updated for order " +:+ orderNumber d)))
      | None => mret tt
      end
  | Some (EvStatusChange data) =>
      when (onStatusChange cfg) (emit (CallStatusChange data));;
      match data with
      | Some d => showNotification cfg "Order Status Updated" (sd_message d)
      | None => mret tt
      end
  | Some EvHeartbeat => mret tt
  | Some (EvError message) =>
      modify (set_error (Some (or_else message "Unknown error")));;
      when (enableToasts cfg)
           (emit (Toast ToastError (or_else message "Tracking error occurred")))
  | Some EvOrderUpdate => mret tt
  | Some (EvUnknown _) => mret tt
  end.

(** [eventSource.onerror] *)
Definition onerror (cfg : Config) : M unit :=
  modify (set_isConnected false);;
  modify (set_error (Some "Connection error"));;
  when (onConnectionChange cfg) (emit (CallConnectionChange false));;
  w ← get;
  if autoReconnect cfg && (reconnectAttempts w <? maxReconnectAttempts)%nat
  then
    modify (set_reconnectAttempts (S (reconnectAttempts w)));;
    w ← get;
    when (enableToasts cfg)
         (emit (Toast ToastError
                  ("Connection lost. Reconnecting... ("
                   +:+ pretty (reconnectAttempts w) +:+ "/"
                   +:+ pretty maxReconnectAttempts +:+ ")")));;
    tid ← setTimeout ReconnectCb
            (reconnectInterval cfg * Z.of_nat (reconnectAttempts w));
    modify (set_reconnectTimeoutRef (Some tid))
  else
    when (enableToasts cfg)
         (emit (Toast ToastError
                  "Failed to connect to live tracking after multiple attempts")).

(** The body of a timer when it fires. *)
Definition run_callback (cfg : Config) (cb : TimerCallback) : M unit :=
  match cb with
  | ReconnectCb => disconnect cfg;; connect cfg
  | ConnectCb => connect cfg
  | CloseNotificationCb => mret tt
  end.

(** The returned [reconnect]. *)
Definition reconnect (cfg : Config) : M unit :=
  disconnect cfg;;
  _ ← setTimeout ConnectCb 1000;
  mret tt.

(** The first effect: its body and its cleanup. *)
Definition mount (cfg : Config) : M unit :=
  when (truthy (cfg_orderId cfg) || truthy (cfg_trackingNumber cfg))
       (requestNotificationPermission cfg;; connect cfg).

Definition unmount (cfg : Config) : M unit := disconnect cfg.

(** [handleVisibilityChange] *)
Definition handleVisibilityChange (cfg : Config) (visible : bool) : M unit :=
  w ← get;
  when (visible && negb (isConnected w)
        && (truthy (cfg_orderId cfg) || truthy (cfg_trackingNumber cfg)))
       (connect cfg).

(** ** What can happen to a mounted hook *)

Inductive Step :=
| Mount
| Unmount
| CallConnect
| CallDisconnect
| CallReconnect
| SourceOpen (id : nat)
| SourceMessage (id : nat) (parsed : option TrackingEvent) (now : Z)
| SourceError (id : nat) (fatal : bool)
| TimerFire (tid : nat)
| VisibilityChange (visible : bool)
| PermissionAnswer (p : Permission).

(** The browser fires [open] only on a connecting source, [message] only on
    an open one and [error] only on one that is not closed; after an error
    the source is closed when the failure is fatal and connecting again
    otherwise.  A timer fires only while it is pending.  Anything else is
    never delivered and leaves the hook as it is.  [PermissionAnswer] is the
    user's answer to the permission prompt. *)
Definition step (cfg : Config) (st : Step) : M unit :=
  match st with
  | Mount => mount cfg
  | Unmount => unmount cfg
  | CallConnect => connect cfg
  | CallDisconnect => disconnect cfg
  | CallReconnect => reconnect cfg
  | SourceOpen id =>
      w ← get;
      match sources w !! id with
      | Some CONNECTING =>
          modify (set_sources (<[id := OPEN]> (sources w)));; onopen cfg
      | _ => mret tt
      end
  | SourceMessage id parsed now =>
      w ← get;
      match sources w !! id with
      | Some OPEN => onmessage cfg parsed now
      | _ => mret tt
      end
  | SourceError id fatal =>
      w ← get;
      match sources w !! id with
      | Some CONNECTING | Some OPEN =>
          modify (set_sources
                    (<[id := if fatal then CLOSED else CONNECTING]> (sources w)));;
          onerror cfg
      | _ => mret tt
      end
  | TimerFire tid =>
      w ← get;
      match timers w !! tid with
      | Some (cb, _) =>
          modify (set_timers (delete tid (timers w)) (nextTimer w));;
          run_callback cfg cb
      | None => mret tt
      end
  | VisibilityChange visible => handleVisibilityChange cfg visible
  | PermissionAnswer p => permissionAnswered cfg p
  end.

Fixpoint run (cfg : Config) (steps : list Step) : M unit :=
  match steps with
  | [] => mret tt
  | st :: rest => step cfg st;; run cfg rest
  end.

(** Transports that are not closed. *)
Definition live (r : ReadyState) : bool :=
  match r with CLOSED => false | _ => true end.

Definition liveTransports (w : World) : nat := length (filter (λ r, live r = true) (sources w)).

Definition is_open (r : ReadyState) : bool :=
  match r with OPEN => true | _ => false end.

Definition openTransports (w : World) : nat := length (filter (λ r, is_open r = true) (sources w)).

Definition defaults (orderId trackingNumber : option string) : Config :=
  {| cfg_orderId := orderId; cfg_trackingNumber := trackingNumber;
     enableNotifications := true; enableToasts := true;
     autoReconnect := true; reconnectInterval := 5000;
     onStatusChange := false; onTrackingUpdate := false;
     onConnectionChange := false |}.

(** Effects that cancel something: closing a transport, clearing a timer. *)
Definition cancels (e : Effect) : bool :=
  match e with
  | CloseEventSource _ | ClearTimeout _ => true
  | _ => false
  end.

(** Every transport that is not closed is the one [eventSourceRef] holds. *)
Definition single (w : World) : Prop :=
  ∀ i r, sources w !! i = Some r → live r = true → eventSourceRef w = Some i.

(** The delay of a reconnect scheduled by [onerror]. *)
Definition reconnect_delay (e : Effect) : option Z :=
  match e with
  | SetTimeout _ ReconnectCb delay => Some delay
  | _ => None
  end.

Definition reconnect_delays (es : list Effect) : list Z := omap reconnect_delay es.

Definition is_open_step (st : Step) : bool :=
  match st with SourceOpen _ => true | _ => false end.

(** Whether [st] is a transport failure that the browser delivers in [w]. *)
Definition delivers_error (st : Step) (w : World) : bool :=
  match st with
  | SourceError id _ =>
      match sources w !! id with
      | Some CONNECTING | Some OPEN => true
      | _ => false
      end
  | _ => false
  end.

(** The number of transport failures delivered along a run. *)
Fixpoint failures (cfg : Config) (steps : list Step) (w : World) : nat :=
  match steps with
  | [] => 0
  | st :: rest =>
      (if delivers_error st w then 1 else 0)
      + failures cfg rest (world_of (step cfg st w))
  end.

(** A consecutive failure: the pending reconnect fires, the new transport
    fails. *)
Fixpoint failure_cycles (n : nat) (first : nat) : list Step :=
  match n with
  | 0 => []
  | Datatypes.S k =>
      SourceError first true :: TimerFire (Datatypes.S first)
        :: failure_cycles k (Datatypes.S first)
  end.

(** [m] leaves the observation [f] of the hook as it is. *)
Definition keeps {X A} (f : World → X) (m : M A) : Prop :=
  ∀ w, f (world_of (m w)) = f w.

(** [m] performs no effect that [f] recognises. *)
Definition silent {X A} (f : Effect → option X) (m : M A) : Prop :=
  ∀ w, omap f (effects_of (m w)) = [].

(** [lastUpdated] is an ISO-8601 timestamp in UTC, as [toISOString] yields;
    such strings are ordered as the instants they denote. *)
Definition ts_le (a b : string) : Prop := String.leb a b = true.

Definition not_before (a b : RealTimeTrackingData) : Prop :=
  ts_le (lastUpdated a) (lastUpdated b).

(** The payload of a [tracking_update] message. *)
Definition update_payload (st : Step) : option RealTimeTrackingData :=
  match st with
  | SourceMessage _ (Some (EvTrackingUpdate (Some d))) _ => Some d
  | _ => None
  end.

Definition payloads (steps : list Step) : list RealTimeTrackingData :=
  omap update_payload steps.

(** The tracking data held after each step of a run. *)
Fixpoint held (cfg : Config) (steps : list Step) (w : World)
    : list (option RealTimeTrackingData) :=
  match steps with
  | [] => []
  | st :: rest =>
      let w' := world_of (step cfg st w) in
      trackingData w' :: held cfg rest w'
  end.

(** No tracking data held at some point is older than one held before. *)
Definition lastUpdated_monotone (h : list (option RealTimeTrackingData)) : Prop :=
  StronglySorted (λ x y, ∀ a b, x = Some a → y = Some b → not_before a b) h.

Definition sample_update (location updated : string) : RealTimeTrackingData :=
  {| orderId := "order-1"; orderNumber := "ORD-1"; status := "shipped";
     trackingNumber := Some "TRK1"; carrier := Some "carrier";
     liveTracking :=
       Some {| lt_status := "in_transit"; currentLocation := Some location;
               estimatedDelivery := None; trackingHistory := None |};
     lastUpdated := updated; hasNewUpdate := true |}.

End Tracking.

(** ** useMultipleOrderTracking *)

Module Aggregator.

(** The two [useState] maps and one [useRealTimeTracking] instance per entry
    of [orderIds]. *)
Record State := {
  orderIds : list string;
  trackingData : gmap string (option Tracking.RealTimeTrackingData);
  connections : gmap string bool;
  trackingHooks : list Tracking.World
}.

(** [handleTrackingUpdate(orderId)(data)]: [{...prev, [orderId]: data}] *)
Definition handleTrackingUpdate (orderId : string)
    (data : option Tracking.RealTimeTrackingData) (s : State) : State :=
  {| orderIds := orderIds s;
     trackingData := <[orderId := data]> (trackingData s);
     connections := connections s;
     trackingHooks := trackingHooks s |}.

(** [handleConnectionChange(orderId)(connected)] *)
Definition handleConnectionChange (orderId : string) (connected : bool)
    (s : State) : State :=
  {| orderIds := orderIds s;
     trackingData := trackingData s;
     connections := <[orderId := connected]> (connections s);
     trackingHooks := trackingHooks s |}.

Definition set_hook (i : nat) (w : Tracking.World) (s : State) : State :=
  {| orderIds := orderIds s;
     trackingData := trackingData s;
     connections := connections s;
     trackingHooks := <[i := w]> (trackingHooks s) |}.

(** [useRealTimeTracking(orderId, undefined, {...options, onTrackingUpdate,
    onConnectionChange})] *)
Definition child_config (options : Tracking.Config) (orderId : string)
    : Tracking.Config :=
  {| Tracking.cfg_orderId := Some orderId;
     Tracking.cfg_trackingNumber := None;
     Tracking.enableNotifications := Tracking.enableNotifications options;
     Tracking.enableToasts := Tracking.enableToasts options;
     Tracking.autoReconnect := Tracking.autoReconnect options;
     Tracking.reconnectInterval := Tracking.reconnectInterval options;
     Tracking.onStatusChange := Tracking.onStatusChange options;
     Tracking.onTrackingUpdate := true;
     Tracking.onConnectionChange := true |}.

(** A callback invoked by the child for [orderId] reaches the aggregator's
    handler; every other effect passes by. *)
Definition dispatch (orderId : string) (s : State) (e : Tracking.Effect)
    : State :=
  match e with
  | Tracking.CallTrackingUpdate data => handleTrackingUpdate orderId data s
  | Tracking.CallConnectionChange connected =>
      handleConnectionChange orderId connected s
  | _ => s
  end.

(** One step of the [i]-th child hook, with what it did. *)
Definition child_step (options : Tracking.Config) (i : nat)
    (st : Tracking.Step) (s : State) : State * list (string * Tracking.Effect) :=
  match orderIds s !! i, trackingHooks s !! i with
  | Some orderId, Some w =>
      let '(_, w', es) := Tracking.step (child_config options orderId) st w in
      (foldl (dispatch orderId) (set_hook i w' s) es, pair orderId <$> es)
  | _, _ => (s, [])
  end.

Fixpoint run (options : Tracking.Config) (steps : list (nat * Tracking.Step))
    (s : State) : State * list (string * Tracking.Effect) :=
  match steps with
  | [] => (s, [])
  | (i, st) :: rest =>
      let '(s1, e1) := child_step options i st s in
      let '(s2, e2) := run options rest s1 in
      (s2, e1 ++ e2)
  end.

(** The first render followed by the mount effect of every child. *)
Definition init (options : Tracking.Config) (supported : bool)
    (perm : Tracking.Permission) (ids : list string)
    : State * list (string * Tracking.Effect) :=
  run options ((λ i, (i, Tracking.Mount)) <$> seq 0 (length ids))
    {| orderIds := ids; trackingData := ∅; connections := ∅;
       trackingHooks := (λ _, Tracking.initial supported perm) <$> ids |}.

(** [trackingHooks.forEach(hook => hook.reconnect())] *)
Definition reconnectAll (options : Tracking.Config) (s : State)
    : State * list (string * Tracking.Effect) :=
  run options ((λ i, (i, Tracking.CallReconnect)) <$> seq 0 (length (orderIds s))) s.

(** [Object.values(connections)]; [some] and [every] do not depend on the
    order of the values. *)
Definition Object_values (m : gmap string bool) : list bool :=
  (map_to_list m).*2.

Definition isAnyConnected (s : State) : bool :=
  existsb id (Object_values (connections s)).

Definition allConnected (s : State) : bool :=
  forallb id (Object_values (connections s)).

(** The flag passed to [onConnectionChange], for the effects that call it. *)
Definition connection_flag (e : Tracking.Effect) : option bool :=
  match e with
  | Tracking.CallConnectionChange c => Some c
  | _ => None
  end.

(** The connection-change callbacks among what the children did. *)
Definition reports (es : list (string * Tracking.Effect)) : list (string * bool) :=
  omap (λ p, pair p.1 <$> connection_flag p.2) es.

(** What one report does to [connections]. *)
Definition record (m : gmap string bool) (r : string * bool) : gmap string bool :=
  <[r.1 := r.2]> m.

(** The flag an order id reported last, if it reported at all. *)
Definition last_report (orderId : string) (rs : list (string * bool)) : option bool :=
  snd <$> last (filter (λ r, r.1 = orderId) rs).

End Aggregator.

(** ** The orders stream route *)

Module OrdersStream.

(** A call either returns or throws. *)
Inductive result (A : Type) :=
| Ok (a : A)
| Throw (e : string).
Arguments Ok {A} a.
Arguments Throw {A} e.

(** A [ReadableStreamDefaultController]: the chunks enqueued so far and
    whether the stream is still readable. *)
Record Controller := {
  closed : bool;
  queue : list (list Byte.byte)
}.

(** [type Client = { id; controller }]; the controller is a reference into
    [streams]. *)
Record Client := {
  id : nat;
  controller : nat
}.

(** What the abort listener of a request closes over. *)
Record Listener := {
  l_heartbeat : nat;
  l_client : nat;
  l_controller : nat
}.

(** Module state ([clients], [clientSeq]) and the runtime objects the route
    created: every stream constructed (a handle is an index in [streams]),
    the running heartbeat intervals and the registered abort listeners. *)
Record Server := {
  clients : list Client;
  clientSeq : nat;
  streams : list Controller;
  intervals : gmap nat nat;
  nextInterval : nat;
  listeners : gmap nat Listener
}.

Definition initial : Server :=
  {| clients := []; clientSeq := 1; streams := []; intervals := ∅;
     nextInterval := 1; listeners := ∅ |}.

Definition set_clients v n (s : Server) : Server :=
  {| clients := v; clientSeq := n; streams := streams s;
     intervals := intervals s; nextInterval := nextInterval s;
     listeners := listeners s |}.

Definition set_streams v (s : Server) : Server :=
  {| clients := clients s; clientSeq := clientSeq s; streams := v;
     intervals := intervals s; nextInterval := nextInterval s;
     listeners := listeners s |}.

Definition set_intervals v n (s : Server) : Server :=
  {| clients := clients s; clientSeq := clientSeq s; streams := streams s;
     intervals := v; nextInterval := n; listeners := listeners s |}.

Definition set_listeners v (s : Server) : Server :=
  {| clients := clients s; clientSeq := clientSeq s; streams := streams s;
     intervals := intervals s; nextInterval := nextInterval s;
     listeners := v |}.

(** State that survives an exception. *)
Definition S (A : Type) : Type := Server → result A * Server.

Definition ret {A} (a : A) : S A := λ s, (Ok a, s).

Definition bind {A B} (m : S A) (k : A → S B) : S B :=
  λ s, match m s with
       | (Ok a, s1) => k a s1
       | (Throw e, s1) => (Throw e, s1)
       end.

#[global] Instance S_ret : MRet S := @ret.
#[global] Instance S_bind : MBind S := λ A B k m, bind m k.

Definition throw {A} (e : string) : S A := λ s, (Throw e, s).

(** [try { m } catch { h }] *)
Definition try_catch {A} (m : S A) (h : string → S A) : S A :=
  λ s, match m s with
       | (Ok a, s1) => (Ok a, s1)
       | (Throw e, s1) => h e s1
       end.

Definition get : S Server := λ s, (Ok s, s).
Definition modify (f : Server → Server) : S unit := λ s, (Ok tt, f s).

Fixpoint forEach {A} (l : list A) (f : A → S unit) : S unit :=
  match l with
  | [] => mret tt
  | x :: rest => f x;; forEach rest f
  end.

Definition nl : string := String (Ascii.ascii_of_nat 10) "".

(** [new TextEncoder().encode(s)]; strings are held as their UTF-8 bytes. *)
Definition encode (s : string) : list Byte.byte := String.list_byte_of_string s.

(** [controller.enqueue(chunk)] throws once the stream is no longer
    readable. *)
Definition enqueue (h : nat) (chunk : list Byte.byte) : S unit :=
  s ← get;
  match streams s !! h with
  | Some c =>
      if closed c then throw "TypeError: Invalid state: Controller is already closed"
      else modify (set_streams
                     (<[h := {| closed := false; queue := queue c ++ [chunk] |}]>
                        (streams s)))
  | None => throw "TypeError"
  end.

(** [controller.close()] *)
Definition close (h : nat) : S unit :=
  s ← get;
  match streams s !! h with
  | Some c =>
      if closed c then throw "TypeError: Invalid state: Controller is already closed"
      else modify (set_streams
                     (<[h := {| closed := true; queue := queue c |}]> (streams s)))
  | None => throw "TypeError"
  end.

(** The consumer goes away: the stream is cancelled from the other end. *)
Definition cancel (h : nat) : S unit :=
  s ← get;
  match streams s !! h with
  | Some c =>
      modify (set_streams
                (<[h := {| closed := true; queue := queue c |}]> (streams s)))
  | None => mret tt
  end.

Definition setInterval (h : nat) : S nat :=
  s ← get;
  let iv := nextInterval s in
  modify (set_intervals (<[iv := h]> (intervals s)) (Datatypes.S iv));;
  mret iv.

Definition clearInterval (iv : nat) : S unit :=
  s ← get;
  modify (set_intervals (delete iv (intervals s)) (nextInterval s)).

(** The query of a subscription request. *)
Record Request := {
  orderId : option string;
  trackingNumber : option string
}.

(** [ApiError] of [createErrorResponse]. *)
Record ApiError := {
  success : bool;
  message : string;
  error : string;
  statusCode : nat;
  timestamp : string
}.

Inductive Response :=
| StreamResponse (body : nat) (headers : list (string * string))
| JsonResponse (body : ApiError) (status : nat).

(** [createErrorResponse(message, statusCode, error)]; [now] is
    [new Date().toISOString()]. *)
Definition createErrorResponse (now : string) (message : string)
    (statusCode : nat) (error : option string) : Response :=
  JsonResponse
    {| success := false; message := message;
       error := if truthy error then default "" error else message;
       statusCode := statusCode; timestamp := now |}
    statusCode.

Definition sse_headers : list (string * string) :=
  [("Content-Type", "text/event-stream");
   ("Cache-Control", "no-cache, no-transform");
   ("Connection", "keep-alive");
   ("X-Accel-Buffering", "no")].

(** The [start(controller)] of the stream built by [GET]. *)
Definition start (controller : nat) : S unit :=
  s ← get;
  let client := {| id := clientSeq s; controller := controller |} in
  modify (set_clients (clients s ++ [client]) (Datatypes.S (clientSeq s)));;
  enqueue controller (encode ("event: ping" +:+ nl +:+ "data: connected" +:+ nl +:+ nl));;
  heartbeat ← setInterval controller;
  s ← get;
  modify (set_listeners
            (<[controller := {| l_heartbeat := heartbeat; l_client := id client;
                                l_controller := controller |}]> (listeners s))).

(** [new ReadableStream({ start })]: [start] runs inside the constructor. *)
Definition newReadableStream (start : nat → S unit) : S nat :=
  s ← get;
  let h := length (streams s) in
  modify (set_streams (streams s ++ [{| closed := false; queue := [] |}]));;
  start h;;
  mret h.

(** [GET(request)]: the request is not inspected. *)
Definition GET (now : string) (request : Request) : S Response :=
  try_catch
    (stream ← newReadableStream start;
     mret (StreamResponse stream sse_headers))
    (λ _, mret (createErrorResponse now "Failed to open orders stream" 500
                  (Some "SSE Error"))).

(** The heartbeat of the connection on [controller] ticks. *)
Definition heartbeatTick (iv : nat) : S unit :=
  s ← get;
  match intervals s !! iv with
  | Some controller =>
      try_catch
        (enqueue controller
           (encode ("event: ping" +:+ nl +:+ "data: heartbeat" +:+ nl +:+ nl)))
        (λ _, mret tt)
  | None => mret tt
  end.

(** [clients.findIndex(c => c.id === id)] followed by [splice(idx, 1)]. *)
Fixpoint remove_first (cid : nat) (l : list Client) : list Client :=
  match l with
  | [] => []
  | c :: rest => if Nat.eqb (id c) cid then rest else c :: remove_first cid rest
  end.

(** The abort listener of the request served on [h] fires. *)
Definition onAbort (h : nat) : S unit :=
  s ← get;
  match listeners s !! h with
  | Some l =>
      modify (set_listeners (delete h (listeners s)));;
      clearInterval (l_heartbeat l);;
      s ← get;
      modify (set_clients (remove_first (l_client l) (clients s)) (clientSeq s));;
      try_catch (close (l_controller l)) (λ _, mret tt)
  | None => mret tt
  end.

Inductive OrderEventType := created | updated | deleted.

Definition type_name (t : OrderEventType) : string :=
  match t with
  | created => "created"
  | updated => "updated"
  | deleted => "deleted"
  end.

(** The frame [emitOrderEvent] writes for a serialised payload. *)
Definition event_message (type : OrderEventType) (json : string) : list Byte.byte :=
  encode ("event: " +:+ type_name type +:+ nl +:+ "data: " +:+ json +:+ nl +:+ nl).

Section Emit.

(** [payload: any] and [JSON.stringify], which throws on what it cannot
    serialise. *)
Context {Payload : Type} (JSON_stringify : Payload → result string).

Definition emitOrderEvent (type : OrderEventType) (payload : Payload) : S unit :=
  json ← (λ s, (JSON_stringify payload, s)) : S string;
  let data := "event: " +:+ type_name type +:+ nl
              +:+ "data: " +:+ json +:+ nl +:+ nl in
  let message := encode data in
  s ← get;
  forEach (clients s)
    (λ c, try_catch (enqueue (controller c) message) (λ _, mret tt)).

End Emit.

(** One isolated write: a chunk appended to the queue of a readable stream,
    nothing for a stream that is closed or unknown. *)
Definition write (message : list Byte.byte) (st : list Controller) (h : nat)
    : list Controller :=
  match st !! h with
  | Some c =>
      if closed c then st
      else <[h := {| closed := false; queue := queue c ++ [message] |}]> st
  | None => st
  end.

Definition ping_connected : list Byte.byte :=
  encode
    ("event: ping" +:+ nl +:+ "data: connected"
     +:+ nl +:+ nl).

(** The server after [GET] has accepted a request. *)
Definition accepted (s : Server) : Server :=
  let h := length (streams s) in
  {| clients :=
       clients s
       ++ [{| id := clientSeq s;
              controller := h |}];
     clientSeq := Datatypes.S (clientSeq s);
     streams :=
       streams s
       ++ [{| closed := false;
              queue := [ping_connected] |}];
     intervals :=
       <[nextInterval s := h]> (intervals s);
     nextInterval := Datatypes.S (nextInterval s);
     listeners :=
       <[h := {| l_heartbeat := nextInterval s;
                 l_client := clientSeq s;
                 l_controller := h |}]>
         (listeners s) |}.

(** Every subscriber holds a stream of its own, one that was constructed. *)
Definition distinct_controllers (s : Server) : Prop :=
  NoDup (controller <$> clients s)
  ∧ Forall (λ c, controller c < length (streams s)) (clients s).

(** Two accepted requests of which the second consumer has gone away. *)
Definition one_healthy_one_broken : Server :=
  let none := {| orderId := None; trackingNumber := None |} in
  ((GET "2024-01-01T00:00:00.000Z" none;;
    GET "2024-01-01T00:00:01.000Z" none;;
    cancel 1) initial).2.

End OrdersStream.

(** ** Vocabulary for further properties of the hook *)

Module TrackingFacts.

Import Tracking.

(** What a session shows of its connection. *)
Definition connection_view (w : World)
    : list ReadyState * option nat * bool * nat * option nat :=
  (sources w, eventSourceRef w, isConnected w, reconnectAttempts w,
   reconnectTimeoutRef w).

(** Effects that act on the connection: a transport constructed or closed,
    a reconnect or connect scheduled, a timer cleared, the owner told. *)
Definition connection_effect (e : Effect) : option Effect :=
  match e with
  | NewEventSource _ _ | CloseEventSource _ | ClearTimeout _
  | SetTimeout _ ReconnectCb _ | SetTimeout _ ConnectCb _
  | CallConnectionChange _ => Some e
  | _ => None
  end.

Definition is_update_step (st : Step) : bool :=
  match st with
  | SourceMessage _ (Some (EvTrackingUpdate _)) _ => true
  | _ => false
  end.

Definition has_key (cfg : Config) : bool :=
  truthy (cfg_orderId cfg) || truthy (cfg_trackingNumber cfg).

(** A session after its mount and a first failure: one transport, one
    reconnect pending. *)
Definition waiting_to_reconnect : World :=
  world_of (run (defaults (Some "order-1") None) [Mount; SourceError 0 false]
              (initial true PermDefault)).

(** The payload of a [tracking_update] message that the browser delivers
    in [w]. *)
Definition delivers_update (st : Step) (w : World)
    : option (option RealTimeTrackingData) :=
  match st with
  | SourceMessage id (Some (EvTrackingUpdate data)) _ =>
      match sources w !! id with
      | Some OPEN => Some data
      | _ => None
      end
  | _ => None
  end.

(** After each step of a run, the payload of the latest [tracking_update]
    delivered so far, as it was received; [current] before the first. *)
Fixpoint latest_received (cfg : Config) (steps : list Step) (w : World)
    (current : option RealTimeTrackingData)
    : list (option RealTimeTrackingData) :=
  match steps with
  | [] => []
  | st :: rest =>
      let current' := default current (delivers_update st w) in
      current' :: latest_received cfg rest (world_of (step cfg st w)) current'
  end.

End TrackingFacts.

(** ** Payloads of a broadcast *)

Module Payloads.

(** What another route passes to [emitOrderEvent]: an order that serialises
    to [json], or an object that refers to itself. *)
Inductive Payload :=
| PlainOrder (json : string)
| CircularOrder.

(** [JSON.stringify] on these. *)
Definition JSON_stringify (p : Payload) : OrdersStream.result string :=
  match p with
  | PlainOrder json => OrdersStream.Ok json
  | CircularOrder =>
      OrdersStream.Throw "TypeError: Converting circular structure to JSON"
  end.

End Payloads.

(** ** The life of the orders stream route *)

Module Serve.

Import OrdersStream.

(** What happens to the route: a request arrives, the abort signal of the
    request served on stream [h] fires, the consumer of stream [h] goes
    away, the heartbeat interval [iv] ticks, another route calls
    [emitOrderEvent] with a payload whose serialisation is [json]. *)
Inductive Event :=
| Request (now : string) (request : OrdersStream.Request)
| Abort (h : nat)
| Cancel (h : nat)
| Tick (iv : nat)
| Emit (type : OrderEventType) (json : result string).

Definition handle (ev : Event) : S unit :=
  match ev with
  | Request now request => GET now request;; mret tt
  | Abort h => onAbort h
  | Cancel h => cancel h
  | Tick iv => heartbeatTick iv
  | Emit type json => emitOrderEvent (λ p : result string, p) type json
  end.

(** The module state after a sequence of events; an exception thrown to a
    caller leaves the state it was thrown in. *)
Definition serve (evs : list Event) (s : Server) : Server :=
  foldl (λ s ev, (handle ev s).2) s evs.

(** The frame of a heartbeat. *)
Definition ping_heartbeat : list Byte.byte :=
  encode ("event: ping" +:+ nl +:+ "data: heartbeat" +:+ nl +:+ nl).

(** What holds of the module state however it was reached. *)
Definition well_formed (s : Server) : Prop :=
  NoDup (id <$> clients s)
  ∧ Forall (λ c, id c < clientSeq s) (clients s)
  ∧ distinct_controllers s
  ∧ (∀ c, c ∈ clients s →
          ∃ l, listeners s !! controller c = Some l ∧ l_client l = id c)
  ∧ (∀ h l, listeners s !! h = Some l →
            l_controller l = h ∧ h < length (streams s)).

(** [controller.close()] or a cancellation seen from the stream table: the
    stream, if there is one, is closed and keeps its queue. *)
Definition close_at (h : nat) (st : list Controller) : list Controller :=
  match st !! h with
  | Some c => <[h := {| closed := true; queue := queue c |}]> st
  | None => st
  end.

(** Whether a subscriber holds stream [h]. *)
Definition subscribed (s : Server) (h : nat) : bool :=
  bool_decide (h ∈ (controller <$> clients s)).

End Serve.

(** ** API helpers *)

Module ApiHelpers.

(** *** [rateLimit] *)

(** An entry of [rateLimitMap]. *)
Record Window := {
  count : Z;
  resetTime : Z
}.

Record RateLimit := {
  allowed : bool;
  remaining : Z;
  rl_resetTime : Z
}.

(** [rateLimit(identifier, maxRequests, windowMs)]; [now] is the reading of
    [Date.now()], the map is the module's [rateLimitMap]. *)
Definition rateLimit (now : Z) (identifier : string) (maxRequests windowMs : Z)
    (rateLimitMap : gmap string Window) : RateLimit * gmap string Window :=
  let cleaned :=
    filter (λ kd : string * Window, ¬ (resetTime kd.2 < now)%Z) rateLimitMap in
  let current :=
    default {| count := 0; resetTime := now + windowMs |}
            (cleaned !! identifier) in
  let current :=
    if (resetTime current <? now)%Z
    then {| count := 0; resetTime := now + windowMs |}
    else current in
  let current := {| count := count current + 1; resetTime := resetTime current |} in
  ({| allowed := (count current <=? maxRequests)%Z;
      remaining := Z.max 0 (maxRequests - count current);
      rl_resetTime := resetTime current |},
   <[identifier := current]> cleaned).

(** The same caller asking again and again, at the given times. *)
Fixpoint requests (identifier : string) (maxRequests windowMs : Z)
    (times : list Z) (m : gmap string Window)
    : list RateLimit * gmap string Window :=
  match times with
  | [] => ([], m)
  | now :: rest =>
      let '(r, m1) := rateLimit now identifier maxRequests windowMs m in
      let '(rs, m2) := requests identifier maxRequests windowMs rest m1 in
      (r :: rs, m2)
  end.

(** The answer to the [k]-th request of a window that ends at [reset]. *)
Definition nth_answer (maxRequests reset : Z) (k : nat) : RateLimit :=
  {| allowed := (Z.of_nat k <=? maxRequests)%Z;
     remaining := Z.max 0 (maxRequests - Z.of_nat k);
     rl_resetTime := reset |}.

(** *** Pagination *)

Record PaginationInfo := {
  currentPage : Z;
  totalPages : Z;
  totalItems : Z;
  itemsPerPage : Z;
  hasNextPage : bool;
  hasPrevPage : bool;
  nextPage : option Z;
  prevPage : option Z
}.

(** [Math.ceil(a / b)] on integers, for a divisor that is not zero. *)
Definition ceil_div (a b : Z) : Z := (- ((- a) / b))%Z.

(** [createPaginationInfo(currentPage, limit, totalItems)] on integers.
    With [limit = 0] the page count is not a finite number; that case has
    no value here. *)
Definition createPaginationInfo (currentPage limit totalItems : Z)
    : option PaginationInfo :=
  if (limit =? 0)%Z then None
  else
    let totalPages := ceil_div totalItems limit in
    let hasNextPage := (currentPage <? totalPages)%Z in
    let hasPrevPage := (1 <? currentPage)%Z in
    Some {| currentPage := currentPage;
            totalPages := totalPages;
            totalItems := totalItems;
            itemsPerPage := limit;
            hasNextPage := hasNextPage;
            hasPrevPage := hasPrevPage;
            nextPage := if hasNextPage then Some (currentPage + 1)%Z else None;
            prevPage := if hasPrevPage then Some (currentPage - 1)%Z else None |}.

(** [searchParams.get(name)]: the first value given for [name]. *)
Fixpoint get (name : string) (searchParams : list (string * string))
    : option string :=
  match searchParams with
  | [] => None
  | (k, v) :: rest => if String.eqb k name then Some v else get name rest
  end.

(** [x || d] for a string that may be missing. *)
Definition or_default (x : option string) (d : string) : string :=
  match x with
  | Some v => if String.eqb v "" then d else v
  | None => d
  end.

(** A JavaScript number as [parseInt] can return it: [NaN], an infinity, or
    an integer (a double holds only some of the integers; [Int z] is the
    number whose value is [z]). *)
Inductive Num :=
| NaN
| NegInfinity
| Infinity
| Int (z : Z).

(** [Math.max(a, b)] and [Math.min(a, b)]: exact on doubles, and [NaN] as
    soon as one argument is. *)
Definition Math_max (a b : Num) : Num :=
  match a, b with
  | NaN, _ | _, NaN => NaN
  | Infinity, _ | _, Infinity => Infinity
  | NegInfinity, x | x, NegInfinity => x
  | Int x, Int y => Int (Z.max x y)
  end.

Definition Math_min (a b : Num) : Num :=
  match a, b with
  | NaN, _ | _, NaN => NaN
  | NegInfinity, _ | _, NegInfinity => NegInfinity
  | Infinity, x | x, Infinity => x
  | Int x, Int y => Int (Z.min x y)
  end.

Record PaginationParams := {
  page : Num;
  limit : Num;
  skip : Num
}.

Section Pagination.

(** [parseInt(s, 10)], and the subtraction and the multiplication of
    doubles, which round. *)
Context (parseInt : string → Num) (minus times : Num → Num → Num).

(** [getPaginationParams(request)], from the query of the request. *)
Definition getPaginationParams (searchParams : list (string * string))
    : PaginationParams :=
  let page :=
    Math_max (Int 1) (parseInt (or_default (get "page" searchParams) "1")) in
  let requestedLimit := parseInt (or_default (get "limit" searchParams) "24") in
  let limit := Math_min (Int 500) (Math_max (Int 1) requestedLimit) in
  let skip := times (minus page (Int 1)) limit in
  {| page := page; limit := limit; skip := skip |}.

End Pagination.

(** *** Sorting and filters *)

(** [getSortParams(request, allowedFields, defaultSort, defaultOrder)]: the
    one key of the returned object and its direction. *)
Definition getSortParams (searchParams : list (string * string))
    (allowedFields : list string) (defaultSort defaultOrder : string)
    : string * Z :=
  let sortBy := or_default (get "sortBy" searchParams) defaultSort in
  let sortOrder := or_default (get "sortOrder" searchParams) defaultOrder in
  let validSortBy :=
    if bool_decide (sortBy ∈ allowedFields) then sortBy else defaultSort in
  let validSortOrder :=
    if bool_decide (sortOrder ∈ ["asc"; "desc"]) then sortOrder
    else defaultOrder in
  (validSortBy, if String.eqb validSortOrder "asc" then 1%Z else (-1)%Z).





(** *** Error responses *)

Record ApiError := {
  success : bool;
  message : string;
  error : string;
  statusCode : nat;
  timestamp : string;
  errors : option (gmap string (list (option string)))
}.

(** [createErrorResponse(message, statusCode, error, errors)]: the body and
    the status of the response; [now] is [new Date().toISOString()]. *)
Definition createErrorResponse (now : string) (message : string)
    (statusCode : nat) (error : option string)
    (errors : option (gmap string (list (option string))))
    : ApiError * nat :=
  ({| success := false; message := message;
      error := or_default error message;
      statusCode := statusCode; timestamp := now; errors := errors |},
   statusCode).




(** *** [withAuth] *)

(** What [authenticateUser] resolves to. *)
Record Auth (User : Type) := {
  user : option User;
  auth_error : option string
}.
Arguments user {User} _.
Arguments auth_error {User} _.

Section WithAuth.

Context {User H : Type} (role : User → string).

(** The function [withAuth(handler, requiredRoles)] returns, applied to a
    request for which [authenticateUser] resolved to [auth]: an error
    response of its own, or what the handler returns. *)
Definition withAuth (handler : User → H) (requiredRoles : list string)
    (now : string) (auth : Auth User) : ApiError * nat + H :=
  match truthy (auth_error auth), user auth with
  | false, Some u =>
      if (0 <? length requiredRoles)%nat
         && negb (bool_decide (role u ∈ requiredRoles))
      then inl (createErrorResponse now "Insufficient permissions" 403
                  (Some "Authorization Error") None)
      else inr (handler u)
  | _, _ =>
      inl (createErrorResponse now
             (or_default (auth_error auth) "Authentication required") 401
             (Some "Authentication Error") None)
  end.

End WithAuth.

(** *** [sanitizeUser] *)


Section Sanitize.

(** Property values, their truthiness and their [toString()]. *)
Context {V : Type} (truthyV : V → bool) (toString : V → V).


End Sanitize.

End ApiHelpers.

(** ** Vocabulary for the aggregator's merged tracking data *)

Module AggregatorFacts.



End AggregatorFacts.

(** * Properties *)

Import Tracking.

Ltac unfold_m :=
  unfold mbind, M_bind, bind, mret, M_ret, ret, get, modify, emit, when,
    world_of, effects_of in *.

Lemma world_of_bind {A B} (m : M A) (k : A → M B) (w : World) :
  world_of ((m ≫= k) w) = world_of (k (m w).1.1 (world_of (m w))).
Proof.
  unfold_m. destruct (m w) as [[a w1] e1]. simpl.
  destruct (k a w1) as [[b w2] e2]. reflexivity.
Qed.

Lemma effects_of_bind {A B} (m : M A) (k : A → M B) (w : World) :
  effects_of ((m ≫= k) w)
  = effects_of (m w) ++ effects_of (k (m w).1.1 (world_of (m w))).
Proof.
  unfold_m. destruct (m w) as [[a w1] e1]. simpl.
  destruct (k a w1) as [[b w2] e2]. reflexivity.
Qed.

(** ** The validation gate of [connect] *)

(** C5. [connect()] without an order id and without a tracking number (both
    absent, or empty) records the validation message in [error] and does
    nothing else: no EventSource is constructed, no effect leaves the hook,
    and [isConnected] keeps its value, so a disconnected session stays
    disconnected. *)
Theorem connect_requires_key (cfg : Config) (w : World) :
  truthy (cfg_orderId cfg) = false →
  truthy (cfg_trackingNumber cfg) = false →
  connect cfg w
    = (tt, set_error (Some "Order ID or tracking number is required") w, [])
  ∧ error (world_of (connect cfg w))
      = Some "Order ID or tracking number is required"
  ∧ effects_of (connect cfg w) = []
  ∧ sources (world_of (connect cfg w)) = sources w
  ∧ eventSourceRef (world_of (connect cfg w)) = eventSourceRef w
  ∧ (isConnected w = false → isConnected (world_of (connect cfg w)) = false).
Proof.
  intros Ho Ht.
  assert (E : connect cfg w
    = (tt, set_error (Some "Order ID or tracking number is required") w, [])).
  { unfold connect. rewrite Ho, Ht. reflexivity. }
  rewrite E. repeat split; auto.
Qed.

Lemma connect_requires_key_witness :
  connect (defaults None None) (initial true PermDefault)
    = (tt, set_error (Some "Order ID or tracking number is required")
             (initial true PermDefault), [])
  ∧ effects_of (connect (defaults None None) (initial true PermDefault)) = [].
Proof.
  pose proof (connect_requires_key (defaults None None)
                (initial true PermDefault) eq_refl eq_refl) as H.
  split; [exact (proj1 H) | exact (proj1 (proj2 (proj2 H)))].
Defined.

(** ** Tracking updates *)

(** C7. After two consecutive [tracking_update] events the held tracking
    data is the payload of the second one, whatever the first one carried:
    the result does not depend on the first payload. *)
Theorem tracking_update_replaces_wholesale
    (cfg : Config) (w : World) (p1 p1' p2 : option RealTimeTrackingData)
    (now1 now2 : Z) :
  let after first :=
    world_of (onmessage cfg (Some (EvTrackingUpdate p2)) now2
                (world_of (onmessage cfg (Some (EvTrackingUpdate first)) now1 w)))
  in
  trackingData (after p1) = p2
  ∧ trackingData (after p1) = trackingData (after p1').
Proof.
  assert (H : ∀ p n v, trackingData
             (world_of (onmessage cfg (Some (EvTrackingUpdate p)) n v)) = p).
  { intros p n v. unfold onmessage. unfold_m.
    destruct (onTrackingUpdate cfg), p as [d|]; simpl;
      try destruct (hasNewUpdate d && enableToasts cfg); reflexivity. }
  intros after. unfold after. rewrite !H. split; reflexivity.
Qed.

(** ** [disconnect] *)

Lemma disconnect_clean (cfg : Config) (w : World) :
  eventSourceRef w = None →
  reconnectTimeoutRef w = None →
  disconnect cfg w
    = (tt, set_isConnected false w,
       if onConnectionChange cfg then [CallConnectionChange false] else []).
Proof.
  intros He Ht. unfold disconnect. unfold_m. rewrite He. simpl.
  rewrite Ht. simpl. destruct (onConnectionChange cfg); reflexivity.
Qed.

Lemma disconnect_refs (cfg : Config) (w : World) :
  eventSourceRef (world_of (disconnect cfg w)) = None
  ∧ reconnectTimeoutRef (world_of (disconnect cfg w)) = None
  ∧ isConnected (world_of (disconnect cfg w)) = false.
Proof.
  unfold disconnect. unfold_m.
  destruct (eventSourceRef w) eqn:E1; simpl;
    destruct (reconnectTimeoutRef w) eqn:E2; simpl;
    destruct (onConnectionChange cfg); simpl; rewrite ?E1, ?E2; auto.
Qed.

(** C9. On a session that is already disconnected (no transport handle, no
    pending reconnect timer) two calls of [disconnect()] in a row both
    return, neither closes a transport nor clears a timer, and the second
    call leaves the session exactly as the first one left it. *)
Theorem disconnect_idempotent (cfg : Config) (w : World) :
  eventSourceRef w = None →
  reconnectTimeoutRef w = None →
  let first := disconnect cfg w in
  let second := disconnect cfg (world_of first) in
  world_of second = world_of first
  ∧ isConnected (world_of second) = false
  ∧ eventSourceRef (world_of second) = None
  ∧ reconnectTimeoutRef (world_of second) = None
  ∧ filter (λ e, cancels e = true) (effects_of first ++ effects_of second) = [].
Proof.
  intros He Ht. simpl.
  rewrite (disconnect_clean cfg w He Ht). unfold world_of, effects_of. simpl.
  rewrite (disconnect_clean cfg (set_isConnected false w)) by assumption. simpl.
  repeat split; auto.
  destruct (onConnectionChange cfg); reflexivity.
Qed.

Lemma disconnect_idempotent_witness :
  world_of (disconnect (defaults (Some "order-1") None)
              (world_of (disconnect (defaults (Some "order-1") None)
                           (initial true PermDefault))))
  = world_of (disconnect (defaults (Some "order-1") None)
                (initial true PermDefault)).
Proof.
  exact (proj1 (disconnect_idempotent (defaults (Some "order-1") None)
                  (initial true PermDefault) eq_refl eq_refl)).
Defined.

(** ** At most one transport *)

Lemma disconnect_sources (cfg : Config) (w : World) :
  sources (world_of (disconnect cfg w))
  = match eventSourceRef w with
    | Some es => <[es := CLOSED]> (sources w)
    | None => sources w
    end.
Proof.
  unfold disconnect. unfold_m.
  destruct (eventSourceRef w); simpl;
    destruct (reconnectTimeoutRef w); simpl;
    destruct (onConnectionChange cfg); reflexivity.
Qed.

Lemma disconnect_closes_all (cfg : Config) (w : World) :
  single w →
  ∀ i r, sources (world_of (disconnect cfg w)) !! i = Some r → live r = false.
Proof.
  intros Hs i r. rewrite disconnect_sources.
  destruct (eventSourceRef w) as [es|] eqn:E.
  - destruct (decide (i = es)) as [->|Hne].
    + intros H. apply list_lookup_insert_Some in H.
      destruct H as [(_ & <- & _) | (? & _)]; [reflexivity | congruence].
    + rewrite list_lookup_insert_ne by congruence. intros H.
      destruct (live r) eqn:L; [|reflexivity].
      specialize (Hs i r H L). congruence.
  - intros H. destruct (live r) eqn:L; [|reflexivity].
    specialize (Hs i r H L). congruence.
Qed.

(** The reconnect timer closes the transport it replaces: the path taken by
    automatic reconnection keeps [single]. *)
Lemma reconnect_timer_keeps_single (cfg : Config) (w : World) :
  single w → single (world_of (run_callback cfg ReconnectCb w)).
Proof.
  intros Hs. pose proof (disconnect_closes_all cfg w Hs) as Hc.
  pose proof (disconnect_refs cfg w) as (Hr & _ & _).
  unfold run_callback.
  rewrite world_of_bind.
  set (v := world_of (disconnect cfg w)) in *.
  unfold connect.
  destruct (negb (truthy (cfg_orderId cfg)) && negb (truthy (cfg_trackingNumber cfg))).
  - intros i r H L. simpl in H. specialize (Hc i r H). congruence.
  - intros i r H L. unfold_m. simpl in *.
    apply lookup_snoc_Some in H. destruct H as [(_ & H)|(-> & _)].
    + specialize (Hc i r H). congruence.
    + reflexivity.
Qed.

Lemma filter_at_most_one {A} (P : A → Prop) `{∀ x, Decision (P x)} (l : list A) :
  (∀ i j x y, l !! i = Some x → l !! j = Some y → P x → P y → i = j) →
  (length (filter P l) ≤ 1)%nat.
Proof.
  induction l as [|x l IH]; intros Hu; [simpl; lia|].
  rewrite filter_cons. destruct (decide (P x)) as [Hx|Hx].
  - assert (E : filter P l = []).
    { destruct (filter P l) as [|y t] eqn:E; [reflexivity|].
      assert (Hy : y ∈ filter P l) by (rewrite E; left).
      apply list_elem_of_filter in Hy as [Py Hy].
      apply list_elem_of_lookup in Hy as [j Hj].
      specialize (Hu 0 (S j) x y eq_refl Hj Hx Py). discriminate. }
    rewrite E. simpl. lia.
  - apply IH. intros i j a b Hi Hj Pa Pb.
    specialize (Hu (S i) (S j) a b Hi Hj Pa Pb). lia.
Qed.

Lemma single_at_most_one (w : World) : single w → (liveTransports w ≤ 1)%nat.
Proof.
  intros Hs. unfold liveTransports. apply filter_at_most_one.
  intros i j x y Hi Hj Px Py.
  pose proof (Hs i x Hi Px). pose proof (Hs j y Hj Py). congruence.
Qed.

Lemma initial_single supported perm : single (initial supported perm).
Proof. intros i r H. inversion H. Qed.

(** C1, on the code.  A session is mounted with an order id; the tab turns
    visible before the first transport has opened (or after it has failed
    and a reconnect is pending).  [handleVisibilityChange] calls [connect],
    which neither closes the transport held in [eventSourceRef] nor clears
    the pending timer: two transports are live, and both open. *)
Theorem visibility_connect_opens_second_transport :
  let cfg := defaults (Some "order-1") None in
  let w1 := world_of (run cfg [Mount; VisibilityChange true;
                               SourceOpen 0; SourceOpen 1]
                        (initial true PermDefault)) in
  let w2 := world_of (run cfg [Mount; SourceError 0 false;
                               VisibilityChange true]
                        (initial true PermDefault)) in
  sources w1 = [OPEN; OPEN]
  ∧ openTransports w1 = 2
  ∧ sources w2 = [CONNECTING; CONNECTING]
  ∧ liveTransports w2 = 2
  ∧ timers w2 !! 1 = Some (ReconnectCb, 5000%Z).
Proof. vm_compute. repeat split; reflexivity. Qed.

(** ** The stream endpoint *)

Ltac unfold_s :=
  unfold mbind, OrdersStream.S_bind, OrdersStream.bind, mret,
    OrdersStream.S_ret, OrdersStream.ret, OrdersStream.get,
    OrdersStream.modify, OrdersStream.try_catch, OrdersStream.throw in *.

(** C2, as the code has it.  [GET] does not read the query: for every
    request, with or without [orderId] and [trackingNumber], it opens the
    stream, registers a subscriber with the next id, writes the greeting and
    answers with the event-stream response. *)
Theorem GET_opens_stream_for_every_request
    (now : string) (request : OrdersStream.Request) (s : OrdersStream.Server) :
  OrdersStream.GET now request s
  = (OrdersStream.Ok
       (OrdersStream.StreamResponse (length (OrdersStream.streams s))
          OrdersStream.sse_headers),
     OrdersStream.accepted s).
Proof.
  unfold OrdersStream.GET, OrdersStream.newReadableStream, OrdersStream.start,
    OrdersStream.enqueue, OrdersStream.setInterval.
  unfold_s. simpl.
  rewrite list_lookup_middle by reflexivity. simpl.
  rewrite insert_app_r_alt by lia. rewrite Nat.sub_diag. reflexivity.
Qed.

(** C2, as stated, fails: a request with neither key, sent to a server with
    no subscriber yet, is answered with the event stream; a subscriber is
    registered and the greeting is written. *)
Lemma GET_without_key_is_not_rejected :
  let r := OrdersStream.GET "2024-01-01T00:00:00.000Z"
             {| OrdersStream.orderId := None;
                OrdersStream.trackingNumber := None |}
             OrdersStream.initial in
  r.1 = OrdersStream.Ok (OrdersStream.StreamResponse 0 OrdersStream.sse_headers)
  ∧ OrdersStream.clients r.2
    = [{| OrdersStream.id := 1; OrdersStream.controller := 0 |}]
  ∧ OrdersStream.streams r.2
    = [{| OrdersStream.closed := false;
          OrdersStream.queue := [OrdersStream.ping_connected] |}].
Proof. vm_compute. repeat split; reflexivity. Qed.

(** The subscribers that [GET] registers and [onAbort] removes keep streams
    of their own. *)
Lemma GET_keeps_controllers_distinct now request s :
  OrdersStream.distinct_controllers s →
  OrdersStream.distinct_controllers (OrdersStream.GET now request s).2.
Proof.
  intros [Hnd Hlt]. rewrite GET_opens_stream_for_every_request.
  unfold OrdersStream.distinct_controllers, OrdersStream.accepted.
  cbn [snd OrdersStream.clients OrdersStream.streams]. split.
  - rewrite fmap_app. apply NoDup_app. split; [exact Hnd|]. split.
    + intros h Hin Hnew. apply list_elem_of_singleton in Hnew. subst h.
      apply list_elem_of_fmap in Hin as (c & Hc & Hin).
      rewrite Forall_forall in Hlt. specialize (Hlt c Hin). simpl in Hc. lia.
    + apply NoDup_singleton.
  - rewrite length_app. apply Forall_app. split.
    + eapply Forall_impl; [exact Hlt|]. intros c Hc. simpl in *. lia.
    + constructor; [simpl; lia|constructor].
Qed.

Lemma remove_first_sublist cid cs :
  sublist (OrdersStream.remove_first cid cs) cs.
Proof.
  induction cs as [|c cs IH]; [constructor|]. simpl.
  destruct (Nat.eqb _ _); [apply sublist_cons; reflexivity|].
  apply sublist_skip. exact IH.
Qed.

Lemma onAbort_keeps_controllers_distinct h s :
  OrdersStream.distinct_controllers s →
  OrdersStream.distinct_controllers (OrdersStream.onAbort h s).2.
Proof.
  intros [Hnd Hlt]. unfold OrdersStream.onAbort, OrdersStream.clearInterval,
    OrdersStream.close.
  unfold_s. simpl.
  destruct (OrdersStream.listeners s !! h) as [l|]; [|split; assumption].
  simpl.
  assert (Hsub := remove_first_sublist (OrdersStream.l_client l)
                    (OrdersStream.clients s)).
  assert (Hnd' : NoDup (OrdersStream.controller
                          <$> OrdersStream.remove_first (OrdersStream.l_client l)
                                (OrdersStream.clients s))).
  { eapply sublist_NoDup; [exact Hnd|]. apply fmap_sublist. exact Hsub. }
  assert (Hlt' : Forall (λ c, OrdersStream.controller c
                              < length (OrdersStream.streams s))
                   (OrdersStream.remove_first (OrdersStream.l_client l)
                      (OrdersStream.clients s))).
  { apply Forall_forall. intros c Hc. rewrite Forall_forall in Hlt.
    apply Hlt. eapply elem_of_sublist; eassumption. }
  destruct (OrdersStream.streams s !! OrdersStream.l_controller l) as [c|];
    [destruct (OrdersStream.closed c)|]; simpl; split; simpl;
    rewrite ?length_insert; assumption.
Qed.

(** ** Broadcast *)

Lemma forEach_try_enqueue (message : list Byte.byte)
    (cs : list OrdersStream.Client) (s : OrdersStream.Server) :
  OrdersStream.forEach cs
    (λ c, OrdersStream.try_catch
            (OrdersStream.enqueue (OrdersStream.controller c) message)
            (λ _, mret tt)) s
  = (OrdersStream.Ok tt,
     OrdersStream.set_streams
       (foldl (OrdersStream.write message) (OrdersStream.streams s)
          (OrdersStream.controller <$> cs)) s).
Proof.
  revert s. induction cs as [|c cs IH]; intros s.
  - destruct s; reflexivity.
  - cbn [OrdersStream.forEach fmap list_fmap foldl].
    unfold OrdersStream.enqueue, OrdersStream.write. unfold_s.
    destruct (OrdersStream.streams s !! OrdersStream.controller c) as [k|] eqn:E;
      [destruct (OrdersStream.closed k)|]; rewrite IH; simpl;
      try reflexivity; destruct s; reflexivity.
Qed.

Lemma write_lookup_ne (message : list Byte.byte)
    (st : list OrdersStream.Controller) (h h' : nat) :
  h ≠ h' → OrdersStream.write message st h' !! h = st !! h.
Proof.
  intros Hne. unfold OrdersStream.write.
  destruct (st !! h') as [k|]; [destruct (OrdersStream.closed k)|]; auto.
  apply list_lookup_insert_ne. congruence.
Qed.

Lemma foldl_write_notin (message : list Byte.byte) (hs : list nat) :
  ∀ (st : list OrdersStream.Controller) (h : nat),
    h ∉ hs → foldl (OrdersStream.write message) st hs !! h = st !! h.
Proof.
  induction hs as [|h' hs IH]; intros st h Hn; [reflexivity|].
  apply not_elem_of_cons in Hn as [Hne Hn]. simpl.
  rewrite IH by assumption. apply write_lookup_ne. assumption.
Qed.

Lemma foldl_write_in (message : list Byte.byte) (hs : list nat) :
  ∀ (st : list OrdersStream.Controller) (h : nat) (c : OrdersStream.Controller),
    NoDup hs → h ∈ hs → st !! h = Some c →
    foldl (OrdersStream.write message) st hs !! h
    = Some (if OrdersStream.closed c then c
            else {| OrdersStream.closed := false;
                    OrdersStream.queue := OrdersStream.queue c ++ [message] |}).
Proof.
  induction hs as [|h' hs IH]; intros st h c Hnd Hin Hl.
  - inversion Hin.
  - apply NoDup_cons in Hnd as [Hfresh Hnd]. simpl.
    apply elem_of_cons in Hin as [->|Hin].
    + rewrite foldl_write_notin by assumption.
      unfold OrdersStream.write. rewrite Hl.
      destruct (OrdersStream.closed c); [assumption|].
      apply list_lookup_insert_eq. eapply lookup_lt_Some; eassumption.
    + apply IH; try assumption.
      rewrite write_lookup_ne; [assumption|]. intros ->. contradiction.
Qed.

(** C4, as the code has it.  Whenever the payload serialises, subscriber
    [S1] holds a readable stream and subscriber [S2] one that throws on
    write (each subscriber a stream of its own, as [GET] registers them),
    [emitOrderEvent] returns normally, [S1]'s stream has received the
    serialised event (once, after what it already held), [S2]'s failure
    changes nothing, and the subscriber list is as before. *)
Theorem emitOrderEvent_isolates_failures
    {Payload : Type} (JSON_stringify : Payload → OrdersStream.result string)
    (type : OrdersStream.OrderEventType) (payload : Payload) (json : string)
    (s : OrdersStream.Server) (S1 S2 : OrdersStream.Client)
    (c1 c2 : OrdersStream.Controller) :
  JSON_stringify payload = OrdersStream.Ok json →
  NoDup (OrdersStream.controller <$> OrdersStream.clients s) →
  S1 ∈ OrdersStream.clients s →
  S2 ∈ OrdersStream.clients s →
  OrdersStream.streams s !! OrdersStream.controller S1 = Some c1 →
  OrdersStream.closed c1 = false →
  OrdersStream.streams s !! OrdersStream.controller S2 = Some c2 →
  OrdersStream.closed c2 = true →
  let r := OrdersStream.emitOrderEvent JSON_stringify type payload s in
  r.1 = OrdersStream.Ok tt
  ∧ OrdersStream.streams r.2 !! OrdersStream.controller S1
    = Some {| OrdersStream.closed := false;
              OrdersStream.queue :=
                OrdersStream.queue c1 ++ [OrdersStream.event_message type json] |}
  ∧ OrdersStream.streams r.2 !! OrdersStream.controller S2 = Some c2
  ∧ OrdersStream.clients r.2 = OrdersStream.clients s.
Proof.
  intros Hj Hnd H1 H2 Hc1 Ho1 Hc2 Ho2 r. subst r.
  unfold OrdersStream.emitOrderEvent, mbind, OrdersStream.S_bind,
    OrdersStream.bind, OrdersStream.get.
  rewrite Hj. rewrite forEach_try_enqueue. simpl.
  fold (OrdersStream.event_message type json).
  repeat split.
  - erewrite foldl_write_in; eauto.
    + rewrite Ho1. reflexivity.
    + apply list_elem_of_fmap. eauto.
  - erewrite foldl_write_in; eauto.
    + rewrite Ho2. reflexivity.
    + apply list_elem_of_fmap. eauto.
Qed.

Lemma emitOrderEvent_isolates_failures_witness :
  let s := OrdersStream.one_healthy_one_broken in
  let r := OrdersStream.emitOrderEvent (λ p : string, OrdersStream.Ok p)
             OrdersStream.updated "{}" s in
  r.1 = OrdersStream.Ok tt
  ∧ OrdersStream.streams r.2 !! 0
    = Some {| OrdersStream.closed := false;
              OrdersStream.queue :=
                [OrdersStream.ping_connected;
                 OrdersStream.event_message OrdersStream.updated "{}"] |}
  ∧ OrdersStream.streams r.2 !! 1
    = Some {| OrdersStream.closed := true;
              OrdersStream.queue := [OrdersStream.ping_connected] |}
  ∧ OrdersStream.clients r.2 = OrdersStream.clients s.
Proof.
  refine (emitOrderEvent_isolates_failures (λ p : string, OrdersStream.Ok p)
            OrdersStream.updated "{}" "{}" OrdersStream.one_healthy_one_broken
            {| OrdersStream.id := 1; OrdersStream.controller := 0 |}
            {| OrdersStream.id := 2; OrdersStream.controller := 1 |}
            {| OrdersStream.closed := false;
               OrdersStream.queue := [OrdersStream.ping_connected] |}
            {| OrdersStream.closed := true;
               OrdersStream.queue := [OrdersStream.ping_connected] |}
            eq_refl _ _ _ eq_refl eq_refl eq_refl eq_refl).
  - apply (bool_decide_unpack _). vm_compute. exact I.
  - apply list_elem_of_lookup. exists 0. reflexivity.
  - apply list_elem_of_lookup. exists 1. reflexivity.
Defined.

(** C4, as stated, fails: with a healthy subscriber and a broken one
    registered, a payload that [JSON.stringify] cannot serialise makes
    [emitOrderEvent] throw to its caller, and the healthy subscriber
    receives nothing; [JSON.stringify] runs before the loop, outside every
    [try]. *)
Lemma emitOrderEvent_throws_on_circular_payload :
  let s := OrdersStream.one_healthy_one_broken in
  let r := OrdersStream.emitOrderEvent Payloads.JSON_stringify
             OrdersStream.updated Payloads.CircularOrder s in
  OrdersStream.clients s
    = [{| OrdersStream.id := 1; OrdersStream.controller := 0 |};
       {| OrdersStream.id := 2; OrdersStream.controller := 1 |}]
  ∧ OrdersStream.closed <$> OrdersStream.streams s = [false; true]
  ∧ r.1 = OrdersStream.Throw "TypeError: Converting circular structure to JSON"
  ∧ OrdersStream.streams r.2 !! 0
    = Some {| OrdersStream.closed := false;
              OrdersStream.queue := [OrdersStream.ping_connected] |}.
Proof. vm_compute. repeat split; reflexivity. Qed.

(** ** Frame rules for the monad *)

Section Frame.

Context {X : Type} (f : World → X).

Lemma keeps_ret {A} (a : A) : keeps f (mret a).
Proof. intros w. reflexivity. Qed.

Lemma keeps_get : keeps f get.
Proof. intros w. reflexivity. Qed.

Lemma keeps_emit (e : Effect) : keeps f (emit e).
Proof. intros w. reflexivity. Qed.

Lemma keeps_modify (g : World → World) :
  (∀ w, f (g w) = f w) → keeps f (modify g).
Proof. intros H w. apply H. Qed.

Lemma keeps_bind {A B} (m : M A) (k : A → M B) :
  keeps f m → (∀ a, keeps f (k a)) → keeps f (m ≫= k).
Proof.
  intros Hm Hk w. rewrite world_of_bind, Hk. apply Hm.
Qed.

Lemma keeps_when (b : bool) (m : M unit) : keeps f m → keeps f (when b m).
Proof. intros H. destruct b; [exact H | apply keeps_ret]. Qed.

End Frame.

Section Silence.

Context {X : Type} (f : Effect → option X).

Lemma silent_ret {A} (a : A) : silent f (mret a).
Proof. intros w. reflexivity. Qed.

Lemma silent_get : silent f get.
Proof. intros w. reflexivity. Qed.

Lemma silent_modify (g : World → World) : silent f (modify g).
Proof. intros w. reflexivity. Qed.

Lemma silent_emit (e : Effect) : f e = None → silent f (emit e).
Proof. intros H w. unfold emit, effects_of. simpl. rewrite H. reflexivity. Qed.

Lemma silent_bind {A B} (m : M A) (k : A → M B) :
  silent f m → (∀ a, silent f (k a)) → silent f (m ≫= k).
Proof.
  intros Hm Hk w. rewrite effects_of_bind, omap_app, Hm, Hk. reflexivity.
Qed.

Lemma silent_when (b : bool) (m : M unit) : silent f m → silent f (when b m).
Proof. intros H. destruct b; [exact H | apply silent_ret]. Qed.

End Silence.

(** Decompose a goal about a handler along its binds and branches. *)
Ltac frame :=
  repeat first
    [ apply keeps_ret | apply keeps_get | apply keeps_emit
    | apply keeps_modify; intros ?; reflexivity
    | apply keeps_when
    | apply keeps_bind; [|intros ?]
    | apply silent_ret | apply silent_get | apply silent_modify
    | apply silent_emit; reflexivity
    | apply silent_when
    | apply silent_bind; [|intros ?]
    | intros ?; reflexivity
    | match goal with
      | |- keeps _ (match ?x with _ => _ end) => destruct x
      | |- silent _ (match ?x with _ => _ end) => destruct x
      end ].

(** ** Backoff *)

Lemma connect_keeps_attempts cfg : keeps reconnectAttempts (connect cfg).
Proof. unfold connect, newEventSource. frame. Qed.

Lemma connect_no_reconnect cfg : silent reconnect_delay (connect cfg).
Proof. unfold connect, newEventSource. frame. Qed.

Lemma disconnect_keeps_attempts cfg : keeps reconnectAttempts (disconnect cfg).
Proof. unfold disconnect, closeEventSource, clearTimeout. frame. Qed.

Lemma disconnect_no_reconnect cfg : silent reconnect_delay (disconnect cfg).
Proof. unfold disconnect, closeEventSource, clearTimeout. frame. Qed.

Lemma onmessage_keeps_attempts cfg parsed now :
  keeps reconnectAttempts (onmessage cfg parsed now).
Proof. unfold onmessage, showNotification, setTimeout. frame. Qed.

Lemma onmessage_no_reconnect cfg parsed now :
  silent reconnect_delay (onmessage cfg parsed now).
Proof. unfold onmessage, showNotification, setTimeout. frame. Qed.

Lemma run_cons_world cfg st rest w :
  world_of (run cfg (st :: rest) w)
  = world_of (run cfg rest (world_of (step cfg st w))).
Proof. simpl. rewrite world_of_bind. reflexivity. Qed.

Lemma run_cons_effects cfg st rest w :
  effects_of (run cfg (st :: rest) w)
  = effects_of (step cfg st w)
    ++ effects_of (run cfg rest (world_of (step cfg st w))).
Proof. simpl. rewrite effects_of_bind. reflexivity. Qed.

Lemma undelivered_error cfg id fatal w :
  delivers_error (SourceError id fatal) w = false →
  step cfg (SourceError id fatal) w = (tt, w, []).
Proof.
  unfold delivers_error, step. unfold_m.
  destruct (sources w !! id) as [[]|]; intros H; try discriminate; reflexivity.
Qed.

(** Nothing but [onopen] and a delivered failure touches the attempt counter
    or schedules a reconnect. *)
Lemma step_leaves_backoff cfg st w :
  is_open_step st = false →
  delivers_error st w = false →
  reconnectAttempts (world_of (step cfg st w)) = reconnectAttempts w
  ∧ reconnect_delays (effects_of (step cfg st w)) = [].
Proof.
  intros Ho He.
  destruct st; try discriminate;
    try (rewrite undelivered_error by assumption; split; reflexivity).
  all: clear Ho He; split; revert w.
  all: match goal with
       | |- ∀ w, reconnectAttempts (world_of (?m w)) = reconnectAttempts w =>
           change (keeps reconnectAttempts m)
       | |- ∀ w, reconnect_delays (effects_of (?m w)) = [] =>
           change (silent reconnect_delay m)
       end.
  all: unfold step, mount, unmount, reconnect, handleVisibilityChange,
         permissionAnswered, requestNotificationPermission, run_callback;
       frame.
  all: first [ apply connect_keeps_attempts | apply connect_no_reconnect
             | apply disconnect_keeps_attempts | apply disconnect_no_reconnect
             | apply onmessage_keeps_attempts | apply onmessage_no_reconnect ].
Qed.

(** A delivered failure: the counter goes up and a reconnect is scheduled
    while fewer than five attempts were made, nothing happens afterwards. *)
Lemma delivered_error_backoff cfg st w :
  autoReconnect cfg = true →
  delivers_error st w = true →
  reconnectAttempts (world_of (step cfg st w))
    = (if (reconnectAttempts w <? maxReconnectAttempts)%nat
       then S (reconnectAttempts w) else reconnectAttempts w)
  ∧ reconnect_delays (effects_of (step cfg st w))
    = (if (reconnectAttempts w <? maxReconnectAttempts)%nat
       then [(reconnectInterval cfg * Z.of_nat (S (reconnectAttempts w)))%Z]
       else []).
Proof.
  intros Ha Hd. destruct st; try discriminate.
  unfold delivers_error in Hd. unfold step, onerror, setTimeout. unfold_m.
  rewrite Ha.
  destruct (sources w !! id) as [[]|]; try discriminate;
    destruct (onConnectionChange cfg), (enableToasts cfg); simpl;
    destruct (reconnectAttempts w <? maxReconnectAttempts)%nat; simpl;
    split; reflexivity.
Qed.

Lemma backoff_from cfg steps :
  autoReconnect cfg = true →
  Forall (λ st, is_open_step st = false) steps →
  ∀ w,
    reconnect_delays (effects_of (run cfg steps w))
    = (λ n, (reconnectInterval cfg * Z.of_nat n)%Z)
        <$> seq (S (reconnectAttempts w))
              (min (reconnectAttempts w + failures cfg steps w)
                   maxReconnectAttempts
               - reconnectAttempts w).
Proof.
  intros Ha Hs. induction Hs as [|st rest Ho _ IH]; intros w.
  - simpl. replace (_ - _) with 0 by lia. reflexivity.
  - rewrite run_cons_effects. unfold reconnect_delays in *.
    rewrite omap_app, IH. cbn [failures].
    destruct (delivers_error st w) eqn:Hd.
    + destruct (delivered_error_backoff cfg st w Ha Hd) as [Hn He].
      unfold reconnect_delays in He. rewrite He, Hn.
      unfold maxReconnectAttempts in *.
      destruct (Nat.ltb_spec (reconnectAttempts w) 5) as [Hlt|Hge].
      * set (a := reconnectAttempts w) in *.
        set (k := failures cfg rest (world_of (step cfg st w))).
        replace (min (a + (1 + k)) 5 - a) with (S (min (S a + k) 5 - S a)) by lia.
        reflexivity.
      * set (a := reconnectAttempts w) in *.
        set (k := failures cfg rest (world_of (step cfg st w))).
        replace (min (a + k) 5 - a) with 0 by lia.
        replace (min (a + (1 + k)) 5 - a) with 0 by lia.
        reflexivity.
    + destruct (step_leaves_backoff cfg st w Ho Hd) as [Hn He].
      unfold reconnect_delays in He. rewrite He, Hn. reflexivity.
Qed.

(** C3. With [autoReconnect] on and an attempt counter at zero, along any
    run without a successful open the reconnects scheduled are exactly those
    of the first five delivered failures, in order, the one after the N-th
    failure with delay [reconnectInterval * N]; a sixth or later failure
    schedules nothing, and calling [connect()] in between changes nothing
    to that. *)
Theorem backoff_schedule (cfg : Config) (steps : list Step) (w : World) :
  autoReconnect cfg = true →
  reconnectAttempts w = 0 →
  Forall (λ st, is_open_step st = false) steps →
  reconnect_delays (effects_of (run cfg steps w))
  = (λ n, (reconnectInterval cfg * Z.of_nat n)%Z)
      <$> seq 1 (min (failures cfg steps w) maxReconnectAttempts).
Proof.
  intros Ha H0 Hs. rewrite (backoff_from cfg steps Ha Hs w), H0.
  rewrite Nat.add_0_l, Nat.sub_0_r. reflexivity.
Qed.

Lemma backoff_schedule_witness :
  reconnect_delays
    (effects_of (run (defaults (Some "order-1") None)
                   (Mount :: failure_cycles 7 0) (initial true PermDefault)))
  = [5000; 10000; 15000; 20000; 25000]%Z.
Proof.
  rewrite (backoff_schedule (defaults (Some "order-1") None)
             (Mount :: failure_cycles 7 0) (initial true PermDefault)
             eq_refl eq_refl).
  - vm_compute. reflexivity.
  - vm_compute. repeat constructor.
Defined.

(** ** The timestamp of the held tracking data *)

Lemma ts_le_refl (a : string) : ts_le a a.
Proof. unfold ts_le. destruct (String.leb_total a a); assumption. Qed.

Lemma onmessage_update_data cfg p now w :
  trackingData (world_of (onmessage cfg (Some (EvTrackingUpdate p)) now w)) = p.
Proof.
  unfold onmessage. unfold_m.
  destruct (onTrackingUpdate cfg), p as [d|]; simpl;
    try destruct (hasNewUpdate d && enableToasts cfg); reflexivity.
Qed.

Lemma connect_keeps_data cfg : keeps trackingData (connect cfg).
Proof. unfold connect, newEventSource. frame. Qed.

Lemma disconnect_keeps_data cfg : keeps trackingData (disconnect cfg).
Proof. unfold disconnect, closeEventSource, clearTimeout. frame. Qed.

Lemma onopen_keeps_data cfg : keeps trackingData (onopen cfg).
Proof. unfold onopen. frame. Qed.

Lemma onerror_keeps_data cfg : keeps trackingData (onerror cfg).
Proof. unfold onerror, setTimeout. frame. Qed.

(** Only a [tracking_update] message changes the held tracking data, and it
    puts its payload there. *)
Lemma step_data cfg st w b :
  trackingData (world_of (step cfg st w)) = Some b →
  trackingData w = Some b ∨ update_payload st = Some b.
Proof.
  destruct st as [ | | | | | id | id parsed now | id fatal | tid | visible | p ].
  7: {
    unfold step. rewrite world_of_bind. cbn [get world_of fst snd].
    destruct (sources w !! id) as [[]|]; try (intros H; left; exact H).
    destruct parsed as [[]|]; try (intros H; left; exact H).
    - rewrite onmessage_update_data. intros ->. right. reflexivity.
    - unfold onmessage, showNotification, setTimeout.
      match goal with
      | |- trackingData (world_of (?m _)) = _ → _ =>
          assert (K : keeps trackingData m) by frame; rewrite K; auto
      end.
    - unfold onmessage.
      match goal with
      | |- trackingData (world_of (?m _)) = _ → _ =>
          assert (K : keeps trackingData m) by frame; rewrite K; auto
      end.
  }
  all: intros H; left; revert H.
  all: match goal with
       | |- trackingData (world_of (?m _)) = _ → _ =>
           assert (K : keeps trackingData m);
             [|rewrite K; auto]
       end.
  all: unfold step, mount, unmount, reconnect, handleVisibilityChange,
         permissionAnswered, requestNotificationPermission, run_callback;
       frame.
  all: first [ apply connect_keeps_data | apply disconnect_keeps_data
             | apply onopen_keeps_data | apply onerror_keeps_data ].
Qed.

Lemma payloads_cons st rest :
  payloads (st :: rest)
  = match update_payload st with
    | Some d => d :: payloads rest
    | None => payloads rest
    end.
Proof. reflexivity. Qed.

Lemma held_elem cfg steps :
  ∀ w b, Some b ∈ held cfg steps w →
         trackingData w = Some b ∨ b ∈ payloads steps.
Proof.
  induction steps as [|st rest IH]; intros w b Hin.
  - inversion Hin.
  - cbn [held] in Hin. rewrite payloads_cons.
    assert (Hw : trackingData (world_of (step cfg st w)) = Some b
                 ∨ b ∈ payloads rest).
    { apply elem_of_cons in Hin as [Hin|Hin]; [left; congruence|].
      apply IH. exact Hin. }
    destruct Hw as [Hw|Hw].
    + apply step_data in Hw as [Hw|Hw]; [left; exact Hw|].
      right. rewrite Hw. left.
    + right. destruct (update_payload st); [right|]; exact Hw.
Qed.

Lemma held_sorted cfg steps :
  ∀ w,
    StronglySorted not_before (payloads steps) →
    (∀ a, trackingData w = Some a → Forall (not_before a) (payloads steps)) →
    lastUpdated_monotone (held cfg steps w).
Proof.
  unfold lastUpdated_monotone.
  induction steps as [|st rest IH]; intros w Hs Hw; [constructor|].
  cbn [held]. set (w' := world_of (step cfg st w)).
  rewrite payloads_cons in Hs, Hw.
  assert (Hs' : StronglySorted not_before (payloads rest)).
  { destruct (update_payload st); [inversion Hs; assumption|assumption]. }
  assert (Hw' : ∀ a, trackingData w' = Some a →
                     Forall (not_before a) (payloads rest)).
  { intros a Ha. apply step_data in Ha as [Ha|Ha].
    - specialize (Hw a Ha). destruct (update_payload st);
        [inversion Hw; assumption|assumption].
    - rewrite Ha in Hs. inversion Hs; assumption. }
  constructor; [apply IH; assumption|].
  apply Forall_forall. intros y Hy a b Ha ->.
  apply held_elem in Hy as [Hy|Hy].
  - rewrite Ha in Hy. injection Hy as ->. apply ts_le_refl.
  - specialize (Hw' a Ha). rewrite Forall_forall in Hw'. apply Hw'. exact Hy.
Qed.

(** C6, as stated, fails: an update stamped one day earlier than the one
    held replaces it. *)
Lemma lastUpdated_can_decrease :
  ¬ lastUpdated_monotone
      (held (defaults (Some "order-1") None)
         [Mount; SourceOpen 0;
          SourceMessage 0 (Some (EvTrackingUpdate
            (Some (sample_update "Pune" "2024-01-02T10:00:00.000Z")))) 1000;
          SourceMessage 0 (Some (EvTrackingUpdate
            (Some (sample_update "Mumbai" "2024-01-01T10:00:00.000Z")))) 2000]
         (initial true PermDefault)).
Proof.
  unfold lastUpdated_monotone. intros H.
  do 2 (apply StronglySorted_inv in H as [H _]).
  apply StronglySorted_inv in H as [_ H].
  apply Forall_inv in H.
  specialize (H _ _ eq_refl eq_refl). vm_compute in H. discriminate.
Qed.

(** ** The aggregator *)

Lemma isAnyConnected_spec (s : Aggregator.State) :
  Aggregator.isAnyConnected s = true
  ↔ ∃ k, Aggregator.connections s !! k = Some true.
Proof.
  unfold Aggregator.isAnyConnected, Aggregator.Object_values.
  rewrite existsb_exists. split.
  - intros (b & Hin & Hb). apply list_elem_of_In in Hin.
    apply list_elem_of_fmap in Hin as ([k v] & -> & Hkv).
    apply elem_of_map_to_list in Hkv. exists k. simpl in Hb.
    unfold id in Hb. congruence.
  - intros (k & Hk). exists true. split; [|reflexivity].
    apply list_elem_of_In, list_elem_of_fmap. exists (k, true).
    split; [reflexivity|]. apply elem_of_map_to_list. exact Hk.
Qed.

Lemma allConnected_spec (s : Aggregator.State) :
  Aggregator.allConnected s = true
  ↔ ∀ k b, Aggregator.connections s !! k = Some b → b = true.
Proof.
  unfold Aggregator.allConnected, Aggregator.Object_values.
  rewrite forallb_forall. split.
  - intros H k b Hk. apply (H b).
    apply list_elem_of_In, list_elem_of_fmap. exists (k, b).
    split; [reflexivity|]. apply elem_of_map_to_list. exact Hk.
  - intros H b Hin. apply list_elem_of_In in Hin.
    apply list_elem_of_fmap in Hin as ([k v] & -> & Hkv).
    apply elem_of_map_to_list in Hkv. exact (H k v Hkv).
Qed.

Lemma foldl_dispatch_connections orderId es :
  ∀ s, Aggregator.connections (foldl (Aggregator.dispatch orderId) s es)
       = foldl Aggregator.record (Aggregator.connections s)
           (Aggregator.reports (pair orderId <$> es)).
Proof.
  induction es as [|e es IH]; intros s; [reflexivity|].
  cbn [foldl fmap list_fmap]. rewrite IH.
  unfold Aggregator.reports. cbn [omap list_omap].
  destruct e; reflexivity.
Qed.

Lemma child_step_connections options i st s :
  Aggregator.connections (Aggregator.child_step options i st s).1
  = foldl Aggregator.record (Aggregator.connections s)
      (Aggregator.reports (Aggregator.child_step options i st s).2).
Proof.
  unfold Aggregator.child_step.
  destruct (Aggregator.orderIds s !! i) as [orderId|]; [|reflexivity].
  destruct (Aggregator.trackingHooks s !! i) as [w|]; [|reflexivity].
  destruct (step _ st w) as [[u w'] es]. cbn [fst snd].
  exact (foldl_dispatch_connections orderId es (Aggregator.set_hook i w' s)).
Qed.

Lemma run_connections options steps :
  ∀ s, Aggregator.connections (Aggregator.run options steps s).1
       = foldl Aggregator.record (Aggregator.connections s)
           (Aggregator.reports (Aggregator.run options steps s).2).
Proof.
  induction steps as [|[i st] rest IH]; intros s; [reflexivity|].
  cbn [Aggregator.run].
  pose proof (child_step_connections options i st s) as Hc.
  destruct (Aggregator.child_step options i st s) as [s1 e1].
  specialize (IH s1).
  destruct (Aggregator.run options rest s1) as [s2 e2]. cbn [fst snd] in *.
  unfold Aggregator.reports in *. rewrite omap_app, foldl_app, <- Hc. exact IH.
Qed.

Lemma last_report_cons k r rs :
  Aggregator.last_report k (r :: rs)
  = match Aggregator.last_report k rs with
    | Some b => Some b
    | None => if decide (r.1 = k) then Some r.2 else None
    end.
Proof.
  unfold Aggregator.last_report. rewrite filter_cons.
  destruct (decide (r.1 = k)); [rewrite last_cons|];
    destruct (last _); reflexivity.
Qed.

Lemma foldl_record_lookup k rs :
  ∀ m : gmap string bool,
    foldl Aggregator.record m rs !! k
    = match Aggregator.last_report k rs with
      | Some b => Some b
      | None => m !! k
      end.
Proof.
  induction rs as [|r rs IH]; intros m; [reflexivity|].
  cbn [foldl]. rewrite IH, last_report_cons.
  destruct (Aggregator.last_report k rs); [reflexivity|].
  unfold Aggregator.record. destruct (decide (r.1 = k)) as [<-|Hne].
  - apply lookup_insert_eq.
  - apply lookup_insert_ne. exact Hne.
Qed.

Lemma reports_pair orderId es :
  Aggregator.reports (pair orderId <$> es)
  = pair orderId <$> omap Aggregator.connection_flag es.
Proof.
  unfold Aggregator.reports.
  induction es as [|e es IH]; [reflexivity|].
  cbn [fmap list_fmap omap list_omap]. cbn [fmap list_fmap omap list_omap] in IH.
  rewrite IH. simpl. destruct (Aggregator.connection_flag e); reflexivity.
Qed.

Lemma mount_calls_nothing cfg :
  silent Aggregator.connection_flag (step cfg Mount).
Proof.
  unfold step, mount, requestNotificationPermission, connect, newEventSource.
  frame.
Qed.

Lemma child_mount_reports options i s :
  Aggregator.reports (Aggregator.child_step options i Mount s).2 = [].
Proof.
  unfold Aggregator.child_step.
  destruct (Aggregator.orderIds s !! i) as [orderId|]; [|reflexivity].
  destruct (Aggregator.trackingHooks s !! i) as [w|]; [|reflexivity].
  pose proof (mount_calls_nothing (Aggregator.child_config options orderId) w) as H.
  unfold effects_of in H.
  destruct (step _ Mount w) as [[u w'] es]. cbn [fst snd] in *.
  rewrite reports_pair, H. reflexivity.
Qed.

Lemma run_mounts_reports options steps :
  Forall (λ p, p.2 = Mount) steps →
  ∀ s, Aggregator.reports (Aggregator.run options steps s).2 = [].
Proof.
  induction 1 as [|[i st] rest Hm _ IH]; intros s; [reflexivity|].
  simpl in Hm. subst st. cbn [Aggregator.run].
  pose proof (child_mount_reports options i s) as Hc.
  destruct (Aggregator.child_step options i Mount s) as [s1 e1].
  specialize (IH s1).
  destruct (Aggregator.run options rest s1) as [s2 e2]. cbn [fst snd] in *.
  unfold Aggregator.reports in *. rewrite omap_app, Hc, IH. reflexivity.
Qed.

Lemma init_connections options supported perm ids :
  Aggregator.connections (Aggregator.init options supported perm ids).1 = ∅.
Proof.
  unfold Aggregator.init. rewrite run_connections, run_mounts_reports.
  - reflexivity.
  - apply Forall_fmap, Forall_true. reflexivity.
Qed.

Lemma run_no_children options steps :
  ∀ s, Aggregator.orderIds s = [] → Aggregator.run options steps s = (s, []).
Proof.
  induction steps as [|[i st] rest IH]; intros s Hs; [reflexivity|].
  cbn [Aggregator.run]. unfold Aggregator.child_step. rewrite Hs.
  rewrite lookup_nil, (IH s Hs). reflexivity.
Qed.

Lemma empty_connections_flags (s : Aggregator.State) :
  Aggregator.connections s = ∅ →
  Aggregator.allConnected s = true ∧ Aggregator.isAnyConnected s = false.
Proof.
  intros H. unfold Aggregator.allConnected, Aggregator.isAnyConnected,
    Aggregator.Object_values.
  rewrite H, map_to_list_empty. split; reflexivity.
Qed.

(** C8. When the recorded flags are [true] for [A] and [false] for [B],
    [isAnyConnected] is [true] and [allConnected] is [false]; an aggregator
    over no order id, whatever happens to it, has [allConnected = true] and
    [isAnyConnected = false]. *)
Theorem aggregator_logic
    (s : Aggregator.State) (A B : string)
    (options : Config) (supported : bool) (perm : Permission)
    (steps : list (nat * Step)) :
  Aggregator.connections s !! A = Some true →
  Aggregator.connections s !! B = Some false →
  (Aggregator.isAnyConnected s = true ∧ Aggregator.allConnected s = false)
  ∧ (let z := (Aggregator.run options steps
                 (Aggregator.init options supported perm []).1).1 in
     Aggregator.allConnected z = true ∧ Aggregator.isAnyConnected z = false).
Proof.
  intros HA HB. split; [split|].
  - apply isAnyConnected_spec. exists A. exact HA.
  - destruct (Aggregator.allConnected s) eqn:E; [|reflexivity].
    pose proof (proj1 (allConnected_spec s) E B false HB). discriminate.
  - rewrite run_no_children by reflexivity. apply empty_connections_flags.
    reflexivity.
Qed.

Lemma aggregator_logic_witness :
  let s := (Aggregator.run (defaults None None)
              [(0, SourceOpen 0); (1, SourceError 0 false)]
              (Aggregator.init (defaults None None) true PermDefault
                 ["A"; "B"]).1).1 in
  Aggregator.isAnyConnected s = true ∧ Aggregator.allConnected s = false.
Proof.
  refine (proj1 (aggregator_logic _ "A" "B" (defaults None None) true
                   PermDefault [] _ _)).
  - vm_compute. reflexivity.
  - vm_compute. reflexivity.
Defined.

Lemma foldl_dispatch_orderIds orderId es :
  ∀ s, Aggregator.orderIds (foldl (Aggregator.dispatch orderId) s es)
       = Aggregator.orderIds s.
Proof.
  induction es as [|e es IH]; intros s; [reflexivity|].
  cbn [foldl]. rewrite IH. destruct e; reflexivity.
Qed.

Lemma run_orderIds options steps :
  ∀ s, Aggregator.orderIds (Aggregator.run options steps s).1
       = Aggregator.orderIds s.
Proof.
  induction steps as [|[i st] rest IH]; intros s; [reflexivity|].
  cbn [Aggregator.run].
  assert (Hc : Aggregator.orderIds (Aggregator.child_step options i st s).1
               = Aggregator.orderIds s).
  { unfold Aggregator.child_step.
    destruct (Aggregator.orderIds s !! i) as [orderId|]; [|reflexivity].
    destruct (Aggregator.trackingHooks s !! i) as [w|]; [|reflexivity].
    destruct (step _ st w) as [[u w'] es]. cbn [fst snd].
    exact (foldl_dispatch_orderIds orderId es (Aggregator.set_hook i w' s)). }
  destruct (Aggregator.child_step options i st s) as [s1 e1].
  specialize (IH s1).
  destruct (Aggregator.run options rest s1) as [s2 e2]. cbn [fst snd] in *.
  congruence.
Qed.

(** C10. Right after mounting, whatever the list of order ids, no child has
    reported: [connections] is empty, [allConnected] is [true] and
    [isAnyConnected] is [false].  Later on, [connections] holds for each
    order id the flag it reported last and nothing for an id that has not
    reported, so [allConnected] and [isAnyConnected] speak about the ids
    that reported only. *)
Theorem aggregator_counts_reported_only
    (options : Config) (supported : bool) (perm : Permission)
    (ids : list string) (steps : list (nat * Step)) :
  let s0 := (Aggregator.init options supported perm ids).1 in
  let r := Aggregator.run options steps s0 in
  (Aggregator.orderIds s0 = ids
   ∧ Aggregator.connections s0 = ∅
   ∧ Aggregator.allConnected s0 = true
   ∧ Aggregator.isAnyConnected s0 = false)
  ∧ (∀ k, Aggregator.connections r.1 !! k
          = Aggregator.last_report k (Aggregator.reports r.2))
  ∧ (Aggregator.allConnected r.1 = true
     ↔ ∀ k b, Aggregator.last_report k (Aggregator.reports r.2) = Some b
              → b = true)
  ∧ (Aggregator.isAnyConnected r.1 = true
     ↔ ∃ k, Aggregator.last_report k (Aggregator.reports r.2) = Some true).
Proof.
  intros s0 r.
  pose proof (init_connections options supported perm ids) as H0.
  fold s0 in H0.
  assert (Hl : ∀ k, Aggregator.connections r.1 !! k
                    = Aggregator.last_report k (Aggregator.reports r.2)).
  { intros k. unfold r. rewrite run_connections, foldl_record_lookup, H0.
    rewrite lookup_empty. destruct (Aggregator.last_report _ _); reflexivity. }
  split; [|split; [exact Hl|split]].
  - split; [|split; [exact H0 | apply empty_connections_flags; exact H0]].
    unfold s0, Aggregator.init. rewrite run_orderIds. reflexivity.
  - rewrite allConnected_spec. split; intros H k b; [rewrite <- Hl|rewrite Hl];
      apply H.
  - rewrite isAnyConnected_spec. split; intros [k H]; exists k;
      [rewrite <- Hl|rewrite Hl]; exact H.
Qed.


(** * Further properties *)

Import TrackingFacts.

(** ** The session's connection *)

(** X1. A successful open resets the backoff: whatever the attempt counter
    was, once a connecting transport has opened the session is connected,
    its error is cleared and the counter is zero, and the next failure of
    that transport is attempt one, retried after one [reconnectInterval]. *)
Theorem open_resets_backoff
    (cfg : Config) (w : World) (id : nat) (fatal : bool) :
  autoReconnect cfg = true →
  sources w !! id = Some CONNECTING →
  let opened := world_of (step cfg (SourceOpen id) w) in
  let failed := step cfg (SourceError id fatal) opened in
  isConnected opened = true
  ∧ error opened = None
  ∧ reconnectAttempts opened = 0
  ∧ reconnectAttempts (world_of failed) = 1
  ∧ reconnect_delays (effects_of failed) = [(reconnectInterval cfg * 1)%Z].
Proof.
  intros Ha Hs opened failed.
  assert (Ho : opened
    = set_reconnectAttempts 0 (set_error None (set_isConnected true
        (set_sources (<[id := OPEN]> (sources w)) w)))).
  { unfold opened, step, onopen. unfold_m. rewrite Hs.
    destruct (onConnectionChange cfg), (enableToasts cfg); reflexivity. }
  assert (Hd : delivers_error (SourceError id fatal) opened = true).
  { rewrite Ho. unfold delivers_error. simpl.
    rewrite list_lookup_insert_eq; [reflexivity|].
    eapply lookup_lt_Some; exact Hs. }
  destruct (delivered_error_backoff cfg _ opened Ha Hd) as [Hn He].
  fold failed in Hn, He. rewrite Hn, He, Ho. simpl. repeat split.
Qed.

Lemma open_resets_backoff_witness :
  let cfg := defaults (Some "order-1") None in
  let w := world_of (run cfg (Mount :: failure_cycles 3 0)
                       (initial true PermDefault)) in
  reconnectAttempts w = 3
  ∧ reconnect_delays
      (effects_of (step cfg (SourceError 3 true)
                     (world_of (step cfg (SourceOpen 3) w))))
    = [5000%Z].
Proof.
  split; [vm_compute; reflexivity|].
  exact (proj2 (proj2 (proj2 (proj2
    (open_resets_backoff (defaults (Some "order-1") None)
       (world_of (run (defaults (Some "order-1") None)
                    (Mount :: failure_cycles 3 0) (initial true PermDefault)))
       3 true eq_refl eq_refl))))).
Defined.

(** X2. No message, well formed or not, acts on the connection: after any
    [message] event the transports, the transport handle, the connected
    flag, the attempt counter and the reconnect handle are as before, and
    the handler has neither constructed nor closed a transport, scheduled or
    cleared a reconnect, nor called [onConnectionChange]. *)
Theorem message_leaves_connection
    (cfg : Config) (id : nat) (parsed : option TrackingEvent) (now : Z)
    (w : World) :
  connection_view (world_of (step cfg (SourceMessage id parsed now) w))
    = connection_view w
  ∧ omap connection_effect (effects_of (step cfg (SourceMessage id parsed now) w))
    = [].
Proof.
  split; revert w.
  - change (keeps connection_view (step cfg (SourceMessage id parsed now))).
    unfold step, onmessage, showNotification, setTimeout. frame.
  - change (silent connection_effect (step cfg (SourceMessage id parsed now))).
    unfold step, onmessage, showNotification, setTimeout. frame.
Qed.

Lemma set_isConnected_same (w : World) :
  isConnected w = false → set_isConnected false w = w.
Proof. destruct w. simpl. intros ->. reflexivity. Qed.

(** X3. [disconnect()] is idempotent from every state, connected or not: a
    second call right after the first closes no transport, clears no timer
    and leaves the session as the first call left it. *)
Theorem disconnect_twice_any_state (cfg : Config) (w : World) :
  let first := disconnect cfg w in
  let second := disconnect cfg (world_of first) in
  world_of second = world_of first
  ∧ filter (λ e, cancels e = true) (effects_of second) = [].
Proof.
  intros first second.
  destruct (disconnect_refs cfg w) as (He & Ht & Hc). fold first in He, Ht, Hc.
  unfold second. rewrite (disconnect_clean cfg (world_of first) He Ht).
  unfold world_of at 1, effects_of. simpl. split.
  - apply set_isConnected_same. exact Hc.
  - destruct (onConnectionChange cfg); reflexivity.
Qed.

Lemma disconnect_timers (cfg : Config) (w : World) :
  timers (world_of (disconnect cfg w))
  = match reconnectTimeoutRef w with
    | Some tid => delete tid (timers w)
    | None => timers w
    end.
Proof.
  unfold disconnect, closeEventSource, clearTimeout. unfold_m.
  destruct (eventSourceRef w); simpl;
    destruct (reconnectTimeoutRef w); simpl;
    destruct (onConnectionChange cfg); reflexivity.
Qed.

(** X4. [disconnect()] cancels the reconnect that [reconnectTimeoutRef]
    holds: the timer is no longer pending, so it can never fire and
    reconnect a session its owner has disconnected. *)
Theorem disconnect_cancels_pending_reconnect
    (cfg : Config) (w : World) (tid : nat) :
  reconnectTimeoutRef w = Some tid →
  let v := world_of (disconnect cfg w) in
  timers v !! tid = None
  ∧ step cfg (TimerFire tid) v = (tt, v, []).
Proof.
  intros Hr v.
  assert (Ht : timers v !! tid = None).
  { unfold v. rewrite disconnect_timers, Hr. apply lookup_delete_eq. }
  split; [exact Ht|]. unfold step. unfold_m. rewrite Ht. reflexivity.
Qed.

Lemma disconnect_cancels_pending_reconnect_witness :
  timers waiting_to_reconnect !! 1 = Some (ReconnectCb, 5000%Z)
  ∧ timers (world_of (disconnect (defaults (Some "order-1") None)
                        waiting_to_reconnect)) !! 1 = None.
Proof.
  split; [vm_compute; reflexivity|].
  exact (proj1 (disconnect_cancels_pending_reconnect
                  (defaults (Some "order-1") None) waiting_to_reconnect 1
                  eq_refl)).
Defined.

Lemma no_live_filter (l : list ReadyState) :
  (∀ i r, l !! i = Some r → live r = false) →
  filter (λ r, live r = true) l = [].
Proof.
  intros H. destruct (filter _ l) as [|r t] eqn:E; [reflexivity|].
  assert (Hr : r ∈ filter (λ r, live r = true) l) by (rewrite E; left).
  apply list_elem_of_filter in Hr as [Hl Hr].
  apply list_elem_of_lookup in Hr as [i Hi].
  rewrite (H i r Hi) in Hl. discriminate.
Qed.

Lemma connect_with_key (cfg : Config) (w : World) :
  has_key cfg = true →
  world_of (connect cfg w)
  = set_eventSourceRef (Some (length (sources w)))
      (set_sources (sources w ++ [CONNECTING]) w).
Proof.
  unfold has_key, connect. intros Hk.
  destruct (truthy (cfg_orderId cfg)), (truthy (cfg_trackingNumber cfg));
    try discriminate; reflexivity.
Qed.

(** X5. When the only transports alive are the one [eventSourceRef] holds,
    [disconnect()] leaves no transport alive. *)
Theorem disconnect_closes_every_transport (cfg : Config) (w : World) :
  single w → liveTransports (world_of (disconnect cfg w)) = 0.
Proof.
  intros Hs. unfold liveTransports.
  rewrite no_live_filter; [reflexivity|].
  apply disconnect_closes_all. exact Hs.
Qed.

Lemma waiting_to_reconnect_single : single waiting_to_reconnect.
Proof.
  intros i r. destruct i as [|i]; [reflexivity|]. intros H. inversion H.
Qed.

Lemma disconnect_closes_every_transport_witness :
  liveTransports waiting_to_reconnect = 1
  ∧ liveTransports (world_of (disconnect (defaults (Some "order-1") None)
                                waiting_to_reconnect)) = 0.
Proof.
  split; [vm_compute; reflexivity|].
  exact (disconnect_closes_every_transport (defaults (Some "order-1") None)
           waiting_to_reconnect waiting_to_reconnect_single).
Defined.

Lemma single_ignores_timers (w : World) m n :
  single w → single (set_timers m n w).
Proof. intros H. exact H. Qed.

Lemma connect_after_disconnect_live (cfg : Config) (w : World) :
  single w → has_key cfg = true →
  let v := world_of (connect cfg (world_of (disconnect cfg w))) in
  liveTransports v = 1
  ∧ eventSourceRef v = Some (length (sources w))
  ∧ reconnectTimeoutRef v = None.
Proof.
  intros Hs Hk v. unfold v. rewrite (connect_with_key _ _ Hk).
  destruct (disconnect_refs cfg w) as (_ & Ht & _).
  unfold liveTransports. cbn [sources set_eventSourceRef set_sources
    eventSourceRef reconnectTimeoutRef].
  rewrite filter_app, no_live_filter by (apply disconnect_closes_all; exact Hs).
  rewrite disconnect_sources.
  split; [reflexivity|]. split; [|exact Ht].
  destruct (eventSourceRef w); rewrite ?length_insert; reflexivity.
Qed.

Lemma timer_fire_pending cfg w tid cb delay :
  timers w !! tid = Some (cb, delay) →
  world_of (step cfg (TimerFire tid) w)
  = world_of (run_callback cfg cb
                (set_timers (delete tid (timers w)) (nextTimer w) w)).
Proof.
  intros Ht. unfold step. rewrite world_of_bind. cbn [get fst snd world_of].
  rewrite Ht. rewrite world_of_bind. reflexivity.
Qed.

(** X6. The automatic reconnect replaces the transport instead of adding
    one: when the reconnect timer fires on a session whose only live
    transport is the one it holds, the old transport is closed and exactly
    one transport, the new one, is alive afterwards. *)
Theorem reconnect_timer_replaces_transport
    (cfg : Config) (w : World) (tid : nat) (delay : Z) :
  single w →
  has_key cfg = true →
  timers w !! tid = Some (ReconnectCb, delay) →
  let v := world_of (step cfg (TimerFire tid) w) in
  liveTransports v = 1
  ∧ eventSourceRef v = Some (length (sources w))
  ∧ reconnectTimeoutRef v = None
  ∧ single v.
Proof.
  intros Hs Hk Ht v.
  set (u := set_timers (delete tid (timers w)) (nextTimer w) w).
  assert (Hv : v = world_of (connect cfg (world_of (disconnect cfg u)))).
  { unfold v. rewrite (timer_fire_pending _ _ _ _ _ Ht).
    unfold run_callback. rewrite world_of_bind. reflexivity. }
  assert (Hu : single u) by (apply single_ignores_timers; exact Hs).
  destruct (connect_after_disconnect_live cfg u Hu Hk) as (H1 & H2 & H3).
  rewrite Hv. repeat split; try assumption.
  pose proof (reconnect_timer_keeps_single cfg u Hu) as Hk'.
  unfold run_callback in Hk'. rewrite world_of_bind in Hk'. exact Hk'.
Qed.

Lemma reconnect_timer_replaces_transport_witness :
  let v := world_of (step (defaults (Some "order-1") None) (TimerFire 1)
                       waiting_to_reconnect) in
  sources v = [CLOSED; CONNECTING] ∧ liveTransports v = 1.
Proof.
  split; [vm_compute; reflexivity|].
  exact (proj1 (reconnect_timer_replaces_transport
                  (defaults (Some "order-1") None) waiting_to_reconnect 1 5000
                  waiting_to_reconnect_single eq_refl eq_refl)).
Defined.



Lemma non_update_keeps_data (cfg : Config) (st : Step) :
  is_update_step st = false → keeps trackingData (step cfg st).
Proof.
  intros Hu.
  destruct st as [ | | | | | id | id parsed now | id fatal | tid | visible | p ].
  7: { destruct parsed as [[]|]; try discriminate;
         unfold step, onmessage, showNotification, setTimeout; frame. }
  all: unfold step, mount, unmount, reconnect, handleVisibilityChange,
         permissionAnswered, requestNotificationPermission, run_callback;
       frame.
  all: first [ apply connect_keeps_data | apply disconnect_keeps_data
             | apply onopen_keeps_data | apply onerror_keeps_data ].
Qed.

(** X8. The tracking data a session holds changes on a [tracking_update]
    message only: connecting, disconnecting, failures, reconnects, every
    other message and a malformed one leave it as it is. *)
Theorem held_data_changes_only_on_update
    (cfg : Config) (st : Step) (w : World) :
  is_update_step st = false →
  trackingData (world_of (step cfg st w)) = trackingData w.
Proof. intros Hu. apply non_update_keeps_data. exact Hu. Qed.

Lemma held_data_changes_only_on_update_witness :
  trackingData
    (world_of (step (defaults (Some "order-1") None) (SourceError 0 true)
                 (set_trackingData
                    (Some (sample_update "Pune" "2024-01-02T10:00:00.000Z"))
                    waiting_to_reconnect)))
  = Some (sample_update "Pune" "2024-01-02T10:00:00.000Z").
Proof.
  exact (held_data_changes_only_on_update (defaults (Some "order-1") None)
           (SourceError 0 true)
           (set_trackingData
              (Some (sample_update "Pune" "2024-01-02T10:00:00.000Z"))
              waiting_to_reconnect) eq_refl).
Defined.

(** ** The aggregator's [reconnectAll] *)

Lemma foldl_dispatch_hooks orderId es :
  ∀ s, Aggregator.trackingHooks (foldl (Aggregator.dispatch orderId) s es)
       = Aggregator.trackingHooks s.
Proof.
  induction es as [|e es IH]; intros s; [reflexivity|].
  cbn [foldl]. rewrite IH. destruct e; reflexivity.
Qed.

Lemma child_step_shape options i st s :
  Aggregator.orderIds (Aggregator.child_step options i st s).1
    = Aggregator.orderIds s
  ∧ length (Aggregator.trackingHooks (Aggregator.child_step options i st s).1)
    = length (Aggregator.trackingHooks s).
Proof.
  unfold Aggregator.child_step.
  destruct (Aggregator.orderIds s !! i) as [orderId|]; [|split; reflexivity].
  destruct (Aggregator.trackingHooks s !! i) as [w|]; [|split; reflexivity].
  destruct (step _ st w) as [[u w'] es]. cbn [fst snd].
  rewrite foldl_dispatch_orderIds, foldl_dispatch_hooks. simpl.
  rewrite length_insert. split; reflexivity.
Qed.

Lemma run_hooks_length options steps :
  ∀ s, length (Aggregator.trackingHooks (Aggregator.run options steps s).1)
       = length (Aggregator.trackingHooks s).
Proof.
  induction steps as [|[i st] rest IH]; intros s; [reflexivity|].
  cbn [Aggregator.run].
  destruct (child_step_shape options i st s) as [_ Hc].
  destruct (Aggregator.child_step options i st s) as [s1 e1].
  specialize (IH s1).
  destruct (Aggregator.run options rest s1) as [s2 e2]. cbn [fst snd] in *.
  congruence.
Qed.

(** Every report carries the order id of the child that made it. *)
Lemma child_step_report_ids options i st s :
  Forall (λ r, r.1 ∈ Aggregator.orderIds s)
    (Aggregator.reports (Aggregator.child_step options i st s).2).
Proof.
  unfold Aggregator.child_step.
  destruct (Aggregator.orderIds s !! i) as [orderId|] eqn:E; [|constructor].
  destruct (Aggregator.trackingHooks s !! i) as [w|]; [|constructor].
  destruct (step _ st w) as [[u w'] es]. cbn [fst snd].
  rewrite reports_pair. apply Forall_fmap, Forall_true. intros b. simpl.
  apply list_elem_of_lookup. exists i. exact E.
Qed.

Lemma run_report_ids options steps :
  ∀ s, Forall (λ r, r.1 ∈ Aggregator.orderIds s)
         (Aggregator.reports (Aggregator.run options steps s).2).
Proof.
  induction steps as [|[i st] rest IH]; intros s; [constructor|].
  cbn [Aggregator.run].
  pose proof (child_step_report_ids options i st s) as Hc.
  destruct (child_step_shape options i st s) as [Hi _].
  destruct (Aggregator.child_step options i st s) as [s1 e1].
  specialize (IH s1).
  destruct (Aggregator.run options rest s1) as [s2 e2]. cbn [fst snd] in *.
  unfold Aggregator.reports in *. rewrite omap_app. apply Forall_app.
  split; [exact Hc|]. rewrite Hi in IH. exact IH.
Qed.

Lemma last_report_None k rs :
  Forall (λ r : string * bool, r.1 ≠ k) rs → Aggregator.last_report k rs = None.
Proof.
  intros H. unfold Aggregator.last_report.
  replace (filter (λ r : string * bool, r.1 = k) rs) with (@nil (string * bool));
    [reflexivity|].
  symmetry. induction H as [|r rs Hr _ IH]; [reflexivity|].
  rewrite filter_cons. destruct (decide (r.1 = k)); [contradiction|exact IH].
Qed.

Lemma last_report_all_false k rs :
  Forall (λ r : string * bool, r.2 = false) rs →
  (∃ r, r ∈ rs ∧ r.1 = k) →
  Aggregator.last_report k rs = Some false.
Proof.
  intros Hf (r & Hr & Hk). unfold Aggregator.last_report.
  assert (Hin : r ∈ filter (λ r : string * bool, r.1 = k) rs)
    by (apply list_elem_of_filter; split; assumption).
  destruct (last (filter (λ r : string * bool, r.1 = k) rs)) as [x|] eqn:E.
  - simpl. f_equal. apply last_Some_elem_of in E.
    apply list_elem_of_filter in E as [_ Hx].
    rewrite Forall_forall in Hf. exact (Hf x Hx).
  - apply last_None in E. rewrite E in Hin. inversion Hin.
Qed.

Lemma disconnect_flags cfg w :
  onConnectionChange cfg = true →
  omap Aggregator.connection_flag (effects_of (disconnect cfg w)) = [false].
Proof.
  intros Hc. unfold disconnect, closeEventSource, clearTimeout. unfold_m.
  rewrite Hc.
  destruct (eventSourceRef w); simpl;
    destruct (reconnectTimeoutRef w); reflexivity.
Qed.

Lemma reconnect_flags cfg w :
  onConnectionChange cfg = true →
  omap Aggregator.connection_flag (effects_of (step cfg CallReconnect w))
  = [false].
Proof.
  intros Hc. unfold step, reconnect.
  rewrite effects_of_bind, omap_app, (disconnect_flags _ _ Hc).
  reflexivity.
Qed.

Lemma child_reconnect_reports options i s orderId :
  Aggregator.orderIds s !! i = Some orderId →
  i < length (Aggregator.trackingHooks s) →
  Aggregator.reports (Aggregator.child_step options i CallReconnect s).2
  = [(orderId, false)].
Proof.
  intros Hi Hlt. unfold Aggregator.child_step. rewrite Hi.
  destruct (lookup_lt_is_Some_2 _ _ Hlt) as [w Hw]. rewrite Hw.
  pose proof (reconnect_flags (Aggregator.child_config options orderId) w
                eq_refl) as H.
  unfold effects_of in H.
  destruct (step _ CallReconnect w) as [[u w'] es]. cbn [fst snd] in *.
  rewrite reports_pair, H. reflexivity.
Qed.

Lemma child_reconnect_reports_false options i s :
  Forall (λ r, r.2 = false)
    (Aggregator.reports (Aggregator.child_step options i CallReconnect s).2).
Proof.
  unfold Aggregator.child_step.
  destruct (Aggregator.orderIds s !! i) as [orderId|]; [|constructor].
  destruct (Aggregator.trackingHooks s !! i) as [w|]; [|constructor].
  pose proof (reconnect_flags (Aggregator.child_config options orderId) w
                eq_refl) as H.
  unfold effects_of in H.
  destruct (step _ CallReconnect w) as [[u w'] es]. cbn [fst snd] in *.
  rewrite reports_pair, H. repeat constructor.
Qed.

Lemma reconnect_run_reports options (l : list nat) :
  ∀ s,
    length (Aggregator.trackingHooks s) = length (Aggregator.orderIds s) →
    let rs := Aggregator.reports
                (Aggregator.run options ((λ i, (i, CallReconnect)) <$> l) s).2 in
    Forall (λ r, r.2 = false) rs
    ∧ ∀ i orderId, i ∈ l → Aggregator.orderIds s !! i = Some orderId →
                   (orderId, false) ∈ rs.
Proof.
  induction l as [|j l IH]; intros s Hlen rs.
  - split; [constructor|]. intros i orderId Hi. inversion Hi.
  - unfold rs. cbn [fmap list_fmap Aggregator.run].
    pose proof (child_reconnect_reports_false options j s) as Hf.
    pose proof (child_reconnect_reports options j s) as Hr.
    destruct (child_step_shape options j CallReconnect s) as [Hids Hhooks].
    destruct (Aggregator.child_step options j CallReconnect s) as [s1 e1].
    cbn [fst snd] in *.
    assert (Hlen1 : length (Aggregator.trackingHooks s1)
                    = length (Aggregator.orderIds s1)) by congruence.
    destruct (IH s1 Hlen1) as [IHf IHin].
    unfold Aggregator.run in IHf, IHin. fold Aggregator.run in IHf, IHin.
    destruct (Aggregator.run options _ s1) as [s2 e2]. cbn [fst snd] in *.
    unfold Aggregator.reports in *. rewrite omap_app. split.
    + apply Forall_app. split; assumption.
    + intros i orderId Hi Ho. apply elem_of_app.
      apply elem_of_cons in Hi as [->|Hi].
      * left. rewrite (Hr orderId Ho); [left|].
        rewrite Hlen. eapply lookup_lt_Some. exact Ho.
      * right. apply (IHin i); [exact Hi|]. rewrite Hids. exact Ho.
Qed.

Lemma init_shape options supported perm ids :
  Aggregator.orderIds (Aggregator.init options supported perm ids).1 = ids
  ∧ length (Aggregator.trackingHooks
              (Aggregator.init options supported perm ids).1) = length ids.
Proof.
  unfold Aggregator.init. rewrite run_orderIds, run_hooks_length. simpl.
  rewrite length_fmap. split; reflexivity.
Qed.

(** X9. [reconnectAll()] makes every child report "not connected": whatever
    happened to the aggregator before, right after [reconnectAll()] the
    connection flag of every order id is [false], so [isAnyConnected] is
    [false] and, when there is at least one order id, [allConnected] is
    [false] too, until a child opens again. *)
Theorem reconnectAll_marks_all_disconnected
    (options : Config) (supported : bool) (perm : Permission)
    (ids : list string) (steps : list (nat * Step)) :
  let s := (Aggregator.run options steps
              (Aggregator.init options supported perm ids).1).1 in
  let r := Aggregator.reconnectAll options s in
  (∀ id, id ∈ ids → Aggregator.connections r.1 !! id = Some false)
  ∧ Aggregator.isAnyConnected r.1 = false
  ∧ (ids ≠ [] → Aggregator.allConnected r.1 = false).
Proof.
  intros s r.
  set (s0 := (Aggregator.init options supported perm ids).1) in *.
  destruct (init_shape options supported perm ids) as [Hids0 Hlen0].
  fold s0 in Hids0, Hlen0.
  assert (Hids : Aggregator.orderIds s = ids)
    by (unfold s; rewrite run_orderIds; exact Hids0).
  assert (Hlen : length (Aggregator.trackingHooks s)
                 = length (Aggregator.orderIds s))
    by (unfold s; rewrite run_hooks_length, run_orderIds; congruence).
  assert (Hold : ∀ k, k ∉ ids → Aggregator.connections s !! k = None).
  { intros k Hk. unfold s.
    rewrite run_connections, foldl_record_lookup.
    rewrite last_report_None.
    - unfold s0. rewrite init_connections. apply lookup_empty.
    - eapply Forall_impl; [apply run_report_ids|].
      intros p Hp. simpl in Hp. rewrite Hids0 in Hp. congruence. }
  destruct (reconnect_run_reports options
              (seq 0 (length (Aggregator.orderIds s))) s Hlen) as [Hf Hin].
  assert (Hnew : ∀ k, Aggregator.connections r.1 !! k
                      = match Aggregator.last_report k (Aggregator.reports r.2) with
                        | Some b => Some b
                        | None => Aggregator.connections s !! k
                        end).
  { intros k. unfold r, Aggregator.reconnectAll.
    rewrite run_connections, foldl_record_lookup. reflexivity. }
  assert (Hyes : ∀ id, id ∈ ids →
                       Aggregator.connections r.1 !! id = Some false).
  { intros id Hid. rewrite Hnew.
    rewrite (last_report_all_false id); [reflexivity|exact Hf|].
    rewrite <- Hids in Hid. apply list_elem_of_lookup in Hid as [i Hi].
    exists (id, false). split; [|reflexivity].
    apply (Hin i); [|exact Hi].
    apply elem_of_seq. split; [lia|]. simpl.
    eapply lookup_lt_Some. exact Hi. }
  assert (Hno : ∀ k, k ∉ ids → Aggregator.connections r.1 !! k = None).
  { intros k Hk. rewrite Hnew, last_report_None; [exact (Hold k Hk)|].
    eapply Forall_impl; [apply run_report_ids|].
    intros p Hp. simpl in Hp. rewrite Hids in Hp. congruence. }
  split; [exact Hyes|]. split.
  - destruct (Aggregator.isAnyConnected r.1) eqn:E; [|reflexivity].
    apply isAnyConnected_spec in E as [k Hk].
    destruct (decide (k ∈ ids)) as [Hi|Hi].
    + rewrite (Hyes k Hi) in Hk. discriminate.
    + rewrite (Hno k Hi) in Hk. discriminate.
  - intros Hne. destruct ids as [|id ids']; [contradiction|].
    destruct (Aggregator.allConnected r.1) eqn:E; [|reflexivity].
    pose proof (proj1 (allConnected_spec r.1) E id false
                  (Hyes id ltac:(left))). discriminate.
Qed.

(** ** The orders stream route over time *)

Lemma close_at_length h st : length (Serve.close_at h st) = length st.
Proof.
  unfold Serve.close_at. destruct (st !! h); rewrite ?length_insert; reflexivity.
Qed.

Lemma close_at_closed h st c :
  st !! h = Some c → OrdersStream.closed c = true → Serve.close_at h st = st.
Proof.
  intros Hl Hc. unfold Serve.close_at. rewrite Hl.
  apply list_insert_id. rewrite Hl. destruct c. simpl in *. subst. reflexivity.
Qed.

Lemma write_length message st h :
  length (OrdersStream.write message st h) = length st.
Proof.
  unfold OrdersStream.write.
  destruct (st !! h) as [c|]; [destruct (OrdersStream.closed c)|];
    rewrite ?length_insert; reflexivity.
Qed.

Lemma foldl_write_length message hs :
  ∀ st, length (foldl (OrdersStream.write message) st hs) = length st.
Proof.
  induction hs as [|h hs IH]; intros st; [reflexivity|].
  simpl. rewrite IH. apply write_length.
Qed.

(** What each handler does to the module state. *)
Lemma onAbort_listening h l s :
  OrdersStream.listeners s !! h = Some l →
  OrdersStream.onAbort h s
  = (OrdersStream.Ok tt,
     {| OrdersStream.clients :=
          OrdersStream.remove_first (OrdersStream.l_client l)
            (OrdersStream.clients s);
        OrdersStream.clientSeq := OrdersStream.clientSeq s;
        OrdersStream.streams :=
          Serve.close_at (OrdersStream.l_controller l) (OrdersStream.streams s);
        OrdersStream.intervals :=
          delete (OrdersStream.l_heartbeat l) (OrdersStream.intervals s);
        OrdersStream.nextInterval := OrdersStream.nextInterval s;
        OrdersStream.listeners := delete h (OrdersStream.listeners s) |}).
Proof.
  intros Hl. unfold OrdersStream.onAbort, OrdersStream.clearInterval,
    OrdersStream.close. unfold_s. rewrite Hl. simpl.
  destruct (OrdersStream.streams s !! OrdersStream.l_controller l) as [c|] eqn:E.
  - destruct (OrdersStream.closed c) eqn:Ec; simpl.
    + rewrite (close_at_closed _ _ _ E Ec). reflexivity.
    + unfold Serve.close_at. rewrite E. reflexivity.
  - unfold Serve.close_at. rewrite E. reflexivity.
Qed.

Lemma onAbort_not_listening h s :
  OrdersStream.listeners s !! h = None →
  OrdersStream.onAbort h s = (OrdersStream.Ok tt, s).
Proof.
  intros Hl. unfold OrdersStream.onAbort. unfold_s. rewrite Hl. reflexivity.
Qed.

Lemma cancel_state h s :
  OrdersStream.cancel h s
  = (OrdersStream.Ok tt,
     OrdersStream.set_streams (Serve.close_at h (OrdersStream.streams s)) s).
Proof.
  unfold OrdersStream.cancel, Serve.close_at. unfold_s.
  destruct (OrdersStream.streams s !! h); [reflexivity|].
  destruct s; reflexivity.
Qed.

Lemma heartbeatTick_state iv s :
  OrdersStream.heartbeatTick iv s
  = (OrdersStream.Ok tt,
     OrdersStream.set_streams
       match OrdersStream.intervals s !! iv with
       | Some h => OrdersStream.write Serve.ping_heartbeat (OrdersStream.streams s) h
       | None => OrdersStream.streams s
       end s).
Proof.
  unfold OrdersStream.heartbeatTick, OrdersStream.enqueue, OrdersStream.write.
  unfold_s.
  destruct (OrdersStream.intervals s !! iv) as [h|]; [|destruct s; reflexivity].
  destruct (OrdersStream.streams s !! h) as [c|];
    [destruct (OrdersStream.closed c)|]; try reflexivity; destruct s; reflexivity.
Qed.

Lemma emit_state type (json : OrdersStream.result string) s :
  OrdersStream.emitOrderEvent (λ p : OrdersStream.result string, p) type json s
  = match json with
    | OrdersStream.Ok j =>
        (OrdersStream.Ok tt,
         OrdersStream.set_streams
           (foldl (OrdersStream.write (OrdersStream.event_message type j))
              (OrdersStream.streams s)
              (OrdersStream.controller <$> OrdersStream.clients s)) s)
    | OrdersStream.Throw e => (OrdersStream.Throw e, s)
    end.
Proof.
  unfold OrdersStream.emitOrderEvent, mbind, OrdersStream.S_bind,
    OrdersStream.bind, OrdersStream.get.
  destruct json as [j|e]; [|reflexivity].
  rewrite forEach_try_enqueue. reflexivity.
Qed.

(** A handler that only rewrites streams in place keeps the state well
    formed. *)
Lemma well_formed_set_streams st s :
  length st = length (OrdersStream.streams s) →
  Serve.well_formed s → Serve.well_formed (OrdersStream.set_streams st s).
Proof.
  intros Hlen (H1 & H2 & [H3 H3'] & H4 & H5).
  unfold Serve.well_formed, OrdersStream.distinct_controllers. simpl.
  rewrite Hlen. repeat split; try assumption; apply (H5 h l); assumption.
Qed.

Lemma remove_first_excludes cid cs c :
  NoDup (OrdersStream.id <$> cs) →
  c ∈ OrdersStream.remove_first cid cs → OrdersStream.id c ≠ cid.
Proof.
  induction cs as [|x cs IH]; intros Hnd Hin; [inversion Hin|].
  cbn [fmap list_fmap] in Hnd. apply NoDup_cons in Hnd as [Hx Hnd].
  simpl in Hin. destruct (Nat.eqb_spec (OrdersStream.id x) cid) as [<-|Hne].
  - intros Heq. apply Hx. apply list_elem_of_fmap. exists c. split; auto.
  - apply elem_of_cons in Hin as [->|Hin]; [exact Hne|]. apply IH; assumption.
Qed.

Lemma handle_well_formed ev s :
  Serve.well_formed s → Serve.well_formed (Serve.handle ev s).2.
Proof.
  intros Hwf. destruct ev as [now request|h|h|iv|type json]; unfold Serve.handle.
  - unfold mbind, OrdersStream.S_bind, OrdersStream.bind.
    rewrite GET_opens_stream_for_every_request. cbn [snd mret
      OrdersStream.S_ret OrdersStream.ret].
    pose proof (GET_keeps_controllers_distinct now request s) as Hd.
    rewrite GET_opens_stream_for_every_request in Hd. cbn [snd] in Hd.
    destruct Hwf as (H1 & H2 & H3 & H4 & H5).
    split; [|split; [|split; [exact (Hd H3)|split]]];
      unfold OrdersStream.accepted; cbn [OrdersStream.clients
        OrdersStream.clientSeq OrdersStream.streams OrdersStream.listeners].
    + rewrite fmap_app. apply NoDup_app. split; [exact H1|]. split.
      * intros i Hi Hnew. apply list_elem_of_singleton in Hnew. subst i.
        apply list_elem_of_fmap in Hi as (c & Hc & Hin).
        rewrite Forall_forall in H2. specialize (H2 c Hin). simpl in Hc. lia.
      * apply NoDup_singleton.
    + apply Forall_app. split.
      * eapply Forall_impl; [exact H2|]. intros c Hc. simpl in *. lia.
      * constructor; [simpl; lia|constructor].
    + intros c Hc. apply elem_of_app in Hc as [Hc|Hc].
      * destruct (H4 c Hc) as (l & Hl & Hid). exists l. split; [|exact Hid].
        rewrite lookup_insert_ne; [exact Hl|].
        destruct (H5 _ _ Hl) as [_ Hlt]. lia.
      * apply list_elem_of_singleton in Hc. subst c. simpl.
        eexists. split; [apply lookup_insert_eq|reflexivity].
    + intros h l Hl. rewrite length_app. simpl.
      destruct (decide (h = length (OrdersStream.streams s))) as [->|Hne].
      * rewrite lookup_insert_eq in Hl. injection Hl as <-. simpl. split; lia.
      * rewrite lookup_insert_ne in Hl by congruence.
        destruct (H5 _ _ Hl). split; [assumption|lia].
  - destruct (OrdersStream.listeners s !! h) as [l|] eqn:Hl;
      [|rewrite (onAbort_not_listening _ _ Hl); exact Hwf].
    pose proof (onAbort_keeps_controllers_distinct h s) as Hd.
    rewrite (onAbort_listening _ _ _ Hl) in *. cbn [snd] in *.
    destruct Hwf as (H1 & H2 & H3 & H4 & H5).
    assert (Hsub := remove_first_sublist (OrdersStream.l_client l)
                      (OrdersStream.clients s)).
    split; [|split; [|split; [exact (Hd H3)|split]]];
      cbn [OrdersStream.clients OrdersStream.clientSeq OrdersStream.streams
           OrdersStream.listeners].
    + eapply sublist_NoDup; [exact H1|]. apply fmap_sublist. exact Hsub.
    + apply Forall_forall. intros c Hc. rewrite Forall_forall in H2.
      apply H2. eapply elem_of_sublist; eassumption.
    + intros c Hc.
      pose proof (remove_first_excludes _ _ _ H1 Hc) as Hne.
      destruct (H4 c (elem_of_sublist _ _ _ Hc Hsub)) as (l' & Hl' & Hid).
      exists l'. split; [|exact Hid].
      rewrite lookup_delete_ne; [exact Hl'|].
      intros ->. rewrite Hl in Hl'. injection Hl' as <-. congruence.
    + intros h' l' Hl'. rewrite close_at_length.
      apply lookup_delete_Some in Hl' as [_ Hl']. exact (H5 _ _ Hl').
  - rewrite cancel_state. apply well_formed_set_streams; [|exact Hwf].
    apply close_at_length.
  - rewrite heartbeatTick_state. apply well_formed_set_streams; [|exact Hwf].
    destruct (OrdersStream.intervals s !! iv); [apply write_length|reflexivity].
  - rewrite emit_state. destruct json as [j|e]; [|exact Hwf].
    apply well_formed_set_streams; [|exact Hwf]. apply foldl_write_length.
Qed.

Lemma initial_well_formed : Serve.well_formed OrdersStream.initial.
Proof.
  unfold Serve.well_formed, OrdersStream.distinct_controllers. simpl.
  repeat split; try constructor.
  - intros c Hc. inversion Hc.
  - rewrite lookup_empty in H. discriminate.
  - rewrite lookup_empty in H. discriminate.
Qed.

Lemma serve_well_formed evs :
  ∀ s, Serve.well_formed s → Serve.well_formed (Serve.serve evs s).
Proof.
  induction evs as [|ev evs IH]; intros s Hs; [exact Hs|].
  apply IH, handle_well_formed, Hs.
Qed.

(** X10. However the route has been used (requests, aborts, consumers going
    away, heartbeats, broadcasts), the registered subscribers have pairwise
    distinct ids, all below [clientSeq], and each holds a stream of its own
    that was constructed. *)
Theorem subscribers_stay_distinct (evs : list Serve.Event) :
  let s := Serve.serve evs OrdersStream.initial in
  NoDup (OrdersStream.id <$> OrdersStream.clients s)
  ∧ Forall (λ c, OrdersStream.id c < OrdersStream.clientSeq s)
      (OrdersStream.clients s)
  ∧ NoDup (OrdersStream.controller <$> OrdersStream.clients s)
  ∧ Forall (λ c, is_Some (OrdersStream.streams s !! OrdersStream.controller c))
      (OrdersStream.clients s).
Proof.
  destruct (serve_well_formed evs _ initial_well_formed)
    as (H1 & H2 & [H3 H3'] & _).
  repeat split; try assumption.
  eapply Forall_impl; [exact H3'|]. intros c Hc.
  apply lookup_lt_is_Some_2. exact Hc.
Qed.

Lemma close_at_lookup h st :
  (h < length st) → ∃ c, Serve.close_at h st !! h = Some c
                         ∧ OrdersStream.closed c = true.
Proof.
  intros Hlt. unfold Serve.close_at.
  destruct (lookup_lt_is_Some_2 _ _ Hlt) as [c Hc]. rewrite Hc.
  eexists. split; [apply list_lookup_insert_eq; exact Hlt|reflexivity].
Qed.

(** X11. When the abort signal of a connection fires, the cleanup runs to
    its end even if the stream was closed before: the call returns, no
    subscriber holds the stream any more, the stream is closed, its
    heartbeat interval and its listener are gone, and a late tick of that
    heartbeat does nothing. *)
Theorem abort_cleans_up
    (evs : list Serve.Event) (h : nat) (l : OrdersStream.Listener) :
  let s := Serve.serve evs OrdersStream.initial in
  OrdersStream.listeners s !! h = Some l →
  let r := OrdersStream.onAbort h s in
  r.1 = OrdersStream.Ok tt
  ∧ (∀ c, c ∈ OrdersStream.clients r.2 → OrdersStream.controller c ≠ h)
  ∧ (∃ c, OrdersStream.streams r.2 !! h = Some c
          ∧ OrdersStream.closed c = true)
  ∧ OrdersStream.intervals r.2 !! OrdersStream.l_heartbeat l = None
  ∧ OrdersStream.listeners r.2 !! h = None
  ∧ OrdersStream.heartbeatTick (OrdersStream.l_heartbeat l) r.2
    = (OrdersStream.Ok tt, r.2).
Proof.
  intros s Hl r.
  destruct (serve_well_formed evs _ initial_well_formed)
    as (H1 & H2 & H3 & H4 & H5). fold s in H1, H2, H3, H4, H5.
  destruct (H5 _ _ Hl) as [Hc Hlt].
  unfold r. rewrite (onAbort_listening _ _ _ Hl). cbn [fst snd].
  cbn [OrdersStream.clients OrdersStream.streams OrdersStream.intervals
       OrdersStream.listeners].
  split; [reflexivity|]. split; [|split; [|split; [|split]]].
  - intros c Hin Heq.
    pose proof (remove_first_excludes _ _ _ H1 Hin) as Hne.
    assert (Hin' : c ∈ OrdersStream.clients s)
      by (eapply elem_of_sublist; [exact Hin|apply remove_first_sublist]).
    destruct (H4 c Hin') as (l' & Hl' & Hid).
    rewrite Heq, Hl in Hl'. injection Hl' as <-. congruence.
  - rewrite Hc. apply close_at_lookup. exact Hlt.
  - apply lookup_delete_eq.
  - apply lookup_delete_eq.
  - rewrite heartbeatTick_state. cbn [OrdersStream.intervals].
    rewrite lookup_delete_eq. reflexivity.
Qed.

Lemma abort_cleans_up_witness :
  let none := {| OrdersStream.orderId := None;
                 OrdersStream.trackingNumber := None |} in
  let r := OrdersStream.onAbort 0
             (Serve.serve [Serve.Request "2024-01-01T00:00:00.000Z" none;
                           Serve.Cancel 0] OrdersStream.initial) in
  r.1 = OrdersStream.Ok tt ∧ OrdersStream.clients r.2 = [].
Proof.
  split; [|vm_compute; reflexivity].
  exact (proj1 (abort_cleans_up
           [Serve.Request "2024-01-01T00:00:00.000Z"
              {| OrdersStream.orderId := None;
                 OrdersStream.trackingNumber := None |};
            Serve.Cancel 0] 0
           {| OrdersStream.l_heartbeat := 1; OrdersStream.l_client := 1;
              OrdersStream.l_controller := 0 |} eq_refl)).
Defined.

Lemma write_closed message st h' h c :
  st !! h = Some c → OrdersStream.closed c = true →
  OrdersStream.write message st h' !! h = Some c.
Proof.
  intros Hl Hc. unfold OrdersStream.write.
  destruct (st !! h') as [k|] eqn:E; [|exact Hl].
  destruct (OrdersStream.closed k) eqn:Ek; [exact Hl|].
  rewrite list_lookup_insert_ne; [exact Hl|].
  intros ->. rewrite Hl in E. injection E as <-. congruence.
Qed.

Lemma foldl_write_closed message hs :
  ∀ st h c, st !! h = Some c → OrdersStream.closed c = true →
            foldl (OrdersStream.write message) st hs !! h = Some c.
Proof.
  induction hs as [|h' hs IH]; intros st h c Hl Hc; [exact Hl|].
  simpl. apply IH; [|exact Hc]. apply write_closed; assumption.
Qed.

Lemma close_at_closed_other h' st h c :
  st !! h = Some c → OrdersStream.closed c = true →
  Serve.close_at h' st !! h = Some c.
Proof.
  intros Hl Hc. destruct (decide (h' = h)) as [->|Hne].
  - rewrite (close_at_closed _ _ _ Hl Hc). exact Hl.
  - unfold Serve.close_at. destruct (st !! h'); [|exact Hl].
    rewrite list_lookup_insert_ne; [exact Hl|exact Hne].
Qed.

Lemma handle_closed ev s h c :
  OrdersStream.streams s !! h = Some c → OrdersStream.closed c = true →
  OrdersStream.streams (Serve.handle ev s).2 !! h = Some c.
Proof.
  intros Hl Hc. destruct ev as [now request|h'|h'|iv|type json];
    unfold Serve.handle.
  - unfold mbind, OrdersStream.S_bind, OrdersStream.bind.
    rewrite GET_opens_stream_for_every_request. simpl.
    rewrite lookup_app_l; [exact Hl|]. eapply lookup_lt_Some. exact Hl.
  - destruct (OrdersStream.listeners s !! h') as [l|] eqn:E.
    + rewrite (onAbort_listening _ _ _ E). simpl.
      apply close_at_closed_other; assumption.
    + rewrite (onAbort_not_listening _ _ E). exact Hl.
  - rewrite cancel_state. simpl. apply close_at_closed_other; assumption.
  - rewrite heartbeatTick_state. simpl.
    destruct (OrdersStream.intervals s !! iv); [|exact Hl].
    apply write_closed; assumption.
  - rewrite emit_state. destruct json as [j|e]; [|exact Hl]. simpl.
    apply foldl_write_closed; assumption.
Qed.

(** X12. Once a stream is closed nothing is written to it again and it is
    never reopened: whatever happens to the route afterwards, a closed
    stream keeps exactly the chunks it held. *)
Theorem closed_stream_is_final
    (evs : list Serve.Event) (s : OrdersStream.Server) (h : nat)
    (c : OrdersStream.Controller) :
  OrdersStream.streams s !! h = Some c →
  OrdersStream.closed c = true →
  OrdersStream.streams (Serve.serve evs s) !! h = Some c.
Proof.
  revert s. induction evs as [|ev evs IH]; intros s Hl Hc; [exact Hl|].
  apply IH; [|exact Hc]. apply handle_closed; assumption.
Qed.

Lemma closed_stream_is_final_witness :
  OrdersStream.streams
    (Serve.serve [Serve.Emit OrdersStream.updated (OrdersStream.Ok "{}");
                  Serve.Tick 2; Serve.Abort 1]
       OrdersStream.one_healthy_one_broken) !! 1
  = Some {| OrdersStream.closed := true;
            OrdersStream.queue := [OrdersStream.ping_connected] |}.
Proof.
  exact (closed_stream_is_final
           [Serve.Emit OrdersStream.updated (OrdersStream.Ok "{}");
            Serve.Tick 2; Serve.Abort 1]
           OrdersStream.one_healthy_one_broken 1 _ eq_refl eq_refl).
Defined.

(** X13. [emitOrderEvent] has no filter: in every state the route can
    reach, an event that serialises is appended exactly once to the stream
    of every subscriber whose stream is readable, whatever order that
    subscriber asked for; closed streams, streams without a subscriber and
    the subscriber list stay as they are.  An event that does not serialise
    throws to the caller before anything is written. *)
Theorem emit_reaches_every_open_subscriber
    (evs : list Serve.Event) (type : OrdersStream.OrderEventType)
    (json : OrdersStream.result string) :
  let s := Serve.serve evs OrdersStream.initial in
  let r := OrdersStream.emitOrderEvent
             (λ p : OrdersStream.result string, p) type json s in
  match json with
  | OrdersStream.Throw e => r = (OrdersStream.Throw e, s)
  | OrdersStream.Ok j =>
      r.1 = OrdersStream.Ok tt
      ∧ OrdersStream.clients r.2 = OrdersStream.clients s
      ∧ ∀ h c, OrdersStream.streams s !! h = Some c →
          OrdersStream.streams r.2 !! h
          = Some (if OrdersStream.closed c then c
                  else if Serve.subscribed s h
                       then {| OrdersStream.closed := false;
                               OrdersStream.queue :=
                                 OrdersStream.queue c
                                 ++ [OrdersStream.event_message type j] |}
                       else c)
  end.
Proof.
  intros s r. unfold r. rewrite emit_state. destruct json as [j|e]; [|reflexivity].
  cbn [fst snd]. split; [reflexivity|]. split; [reflexivity|].
  intros h c Hl. simpl.
  destruct (serve_well_formed evs _ initial_well_formed)
    as (_ & _ & [Hnd _] & _). fold s in Hnd.
  destruct (OrdersStream.closed c) eqn:Hc.
  - apply foldl_write_closed; assumption.
  - unfold Serve.subscribed. case_bool_decide as Hs.
    + rewrite (foldl_write_in _ _ _ _ _ Hnd Hs Hl), Hc. reflexivity.
    + rewrite foldl_write_notin; assumption.
Qed.

(** X14. A heartbeat tick never throws and touches nothing but the stream
    of its own connection: that stream gets the heartbeat frame if it is
    readable, and a tick for a closed stream or for a cleared interval
    changes nothing. *)
Theorem heartbeat_touches_own_stream_only (iv : nat) (s : OrdersStream.Server) :
  let r := OrdersStream.heartbeatTick iv s in
  r.1 = OrdersStream.Ok tt
  ∧ OrdersStream.clients r.2 = OrdersStream.clients s
  ∧ ∀ h c, OrdersStream.streams s !! h = Some c →
      OrdersStream.streams r.2 !! h
      = Some (if decide (OrdersStream.intervals s !! iv = Some h)
              then if OrdersStream.closed c then c
                   else {| OrdersStream.closed := false;
                           OrdersStream.queue :=
                             OrdersStream.queue c ++ [Serve.ping_heartbeat] |}
              else c).
Proof.
  intros r. unfold r. rewrite heartbeatTick_state. cbn [fst snd].
  split; [reflexivity|]. split; [reflexivity|]. intros h c Hl. simpl.
  destruct (OrdersStream.intervals s !! iv) as [h'|] eqn:E.
  - destruct (decide (Some h' = Some h)) as [[= ->]|Hne].
    + unfold OrdersStream.write. rewrite Hl.
      destruct (OrdersStream.closed c); [exact Hl|].
      apply list_lookup_insert_eq. eapply lookup_lt_Some. exact Hl.
    + rewrite write_lookup_ne; [exact Hl|congruence].
  - destruct (decide (None = Some h)); [discriminate|exact Hl].
Qed.

(** ** The rate limiter *)

Lemma rateLimit_fresh now identifier maxRequests windowMs
    (m : gmap string ApiHelpers.Window) :
  (∀ d, m !! identifier = Some d → (ApiHelpers.resetTime d < now)%Z) →
  ApiHelpers.rateLimit now identifier maxRequests windowMs m
  = (ApiHelpers.nth_answer maxRequests (now + windowMs) 1,
     <[identifier := {| ApiHelpers.count := 1;
                        ApiHelpers.resetTime := now + windowMs |}]>
       (filter (λ kd : string * ApiHelpers.Window,
                  ¬ (ApiHelpers.resetTime kd.2 < now)%Z) m)).
Proof.
  intros Hold. unfold ApiHelpers.rateLimit, ApiHelpers.nth_answer.
  assert (E : filter (λ kd : string * ApiHelpers.Window,
                        ¬ (ApiHelpers.resetTime kd.2 < now)%Z) m !! identifier
              = None).
  { apply map_lookup_filter_None.
    destruct (m !! identifier) as [d|] eqn:Hd; [right|left; reflexivity].
    intros x [= <-] Hx. simpl in Hx. apply Hx, Hold. reflexivity. }
  rewrite E. simpl. destruct (now + windowMs <? now)%Z; reflexivity.
Qed.

Lemma rateLimit_live now identifier maxRequests windowMs
    (m : gmap string ApiHelpers.Window) d :
  m !! identifier = Some d →
  (now ≤ ApiHelpers.resetTime d)%Z →
  ApiHelpers.rateLimit now identifier maxRequests windowMs m
  = ({| ApiHelpers.allowed := (ApiHelpers.count d + 1 <=? maxRequests)%Z;
        ApiHelpers.remaining :=
          Z.max 0 (maxRequests - (ApiHelpers.count d + 1));
        ApiHelpers.rl_resetTime := ApiHelpers.resetTime d |},
     <[identifier := {| ApiHelpers.count := ApiHelpers.count d + 1;
                        ApiHelpers.resetTime := ApiHelpers.resetTime d |}]>
       (filter (λ kd : string * ApiHelpers.Window,
                  ¬ (ApiHelpers.resetTime kd.2 < now)%Z) m)).
Proof.
  intros Hd Hle. unfold ApiHelpers.rateLimit.
  assert (E : filter (λ kd : string * ApiHelpers.Window,
                        ¬ (ApiHelpers.resetTime kd.2 < now)%Z) m !! identifier
              = Some d).
  { apply map_lookup_filter_Some. split; [exact Hd|]. simpl. lia. }
  rewrite E. simpl.
  destruct (Z.ltb_spec (ApiHelpers.resetTime d) now); [lia|reflexivity].
Qed.

Lemma requests_in_window identifier maxRequests windowMs reset (times : list Z) :
  ∀ (m : gmap string ApiHelpers.Window) (c : nat),
    m !! identifier
      = Some {| ApiHelpers.count := Z.of_nat c; ApiHelpers.resetTime := reset |} →
    Forall (λ t, (t ≤ reset)%Z) times →
    (ApiHelpers.requests identifier maxRequests windowMs times m).1
    = ApiHelpers.nth_answer maxRequests reset <$> seq (S c) (length times).
Proof.
  induction times as [|t times IH]; intros m c Hm Ht; [reflexivity|].
  apply Forall_cons in Ht as [Ht Hts].
  cbn [ApiHelpers.requests length seq fmap list_fmap].
  rewrite (rateLimit_live t identifier maxRequests windowMs m _ Hm Ht).
  cbn [ApiHelpers.count ApiHelpers.resetTime].
  replace (Z.of_nat c + 1)%Z with (Z.of_nat (S c)) by lia.
  specialize (IH (<[identifier := {| ApiHelpers.count := Z.of_nat (S c);
                                    ApiHelpers.resetTime := reset |}]>
                    (filter (λ kd : string * ApiHelpers.Window,
                               ¬ (ApiHelpers.resetTime kd.2 < t)%Z) m))
                 (S c) (lookup_insert_eq _ _ _) Hts).
  destruct (ApiHelpers.requests identifier maxRequests windowMs times _)
    as [rs m2]. cbn [fst] in *. rewrite IH. reflexivity.
Qed.

(** X15. A caller that has no running window (never seen, or seen only in a
    window that has ended) opens one with its first request; as long as its
    requests arrive before that window ends, the k-th of them is allowed
    exactly when [k ≤ maxRequests], reports [max(0, maxRequests - k)]
    remaining, and the reset time stays that of the first request. *)
Theorem rate_limit_counts_window
    (identifier : string) (maxRequests windowMs first : Z) (later : list Z)
    (m : gmap string ApiHelpers.Window) :
  (∀ d, m !! identifier = Some d → (ApiHelpers.resetTime d < first)%Z) →
  Forall (λ t, (t ≤ first + windowMs)%Z) later →
  (ApiHelpers.requests identifier maxRequests windowMs (first :: later) m).1
  = ApiHelpers.nth_answer maxRequests (first + windowMs)
      <$> seq 1 (S (length later)).
Proof.
  intros Hold Hlater. cbn [ApiHelpers.requests].
  rewrite (rateLimit_fresh _ _ _ _ _ Hold).
  pose proof (requests_in_window identifier maxRequests windowMs
                (first + windowMs) later
                (<[identifier := {| ApiHelpers.count := 1;
                                   ApiHelpers.resetTime := first + windowMs |}]>
                   (filter (λ kd : string * ApiHelpers.Window,
                              ¬ (ApiHelpers.resetTime kd.2 < first)%Z) m))
                1 (lookup_insert_eq _ _ _) Hlater) as H.
  destruct (ApiHelpers.requests identifier maxRequests windowMs later _)
    as [rs m2]. cbn [fst] in *. rewrite H. reflexivity.
Qed.

Lemma rate_limit_counts_window_witness :
  ApiHelpers.allowed
    <$> (ApiHelpers.requests "cod_order_203.0.113.7" 5 60000
           [1000; 2000; 3000; 4000; 5000; 6000]%Z ∅).1
  = [true; true; true; true; true; false].
Proof.
  rewrite (rate_limit_counts_window "cod_order_203.0.113.7" 5 60000 1000
             [2000; 3000; 4000; 5000; 6000]%Z ∅).
  - vm_compute. reflexivity.
  - intros d H. rewrite lookup_empty in H. discriminate.
  - repeat constructor; lia.
Defined.

(** X16. A request of one caller leaves the windows of the others alone,
    except that windows which have ended are dropped from the map. *)
Theorem rate_limit_other_callers
    (now : Z) (identifier other : string) (maxRequests windowMs : Z)
    (m : gmap string ApiHelpers.Window) :
  other ≠ identifier →
  (ApiHelpers.rateLimit now identifier maxRequests windowMs m).2 !! other
  = match m !! other with
    | Some d => if bool_decide (ApiHelpers.resetTime d < now)%Z
                then None else Some d
    | None => None
    end.
Proof.
  intros Hne. unfold ApiHelpers.rateLimit. cbn [snd].
  rewrite lookup_insert_ne by congruence.
  rewrite map_lookup_filter.
  destruct (m !! other) as [d|]; [|reflexivity]. simpl.
  case_bool_decide; case_guard; simpl in *; try reflexivity; contradiction.
Qed.

Lemma rate_limit_other_callers_witness :
  let m : gmap string ApiHelpers.Window :=
    {[ "a" := {| ApiHelpers.count := 3; ApiHelpers.resetTime := 500 |};
       "b" := {| ApiHelpers.count := 2; ApiHelpers.resetTime := 9000 |} ]} in
  (ApiHelpers.rateLimit 1000 "c" 5 60000 m).2 !! "a" = None
  ∧ (ApiHelpers.rateLimit 1000 "c" 5 60000 m).2 !! "b"
    = Some {| ApiHelpers.count := 2; ApiHelpers.resetTime := 9000 |}.
Proof.
  split.
  - rewrite (rate_limit_other_callers 1000 "c" "a" 5 60000); [|discriminate].
    vm_compute. reflexivity.
  - rewrite (rate_limit_other_callers 1000 "c" "b" 5 60000); [|discriminate].
    vm_compute. reflexivity.
Defined.

(** ** Pagination *)

Lemma ceil_div_bounds (a b : Z) :
  (0 < b)%Z →
  ((ApiHelpers.ceil_div a b - 1) * b < a ≤ ApiHelpers.ceil_div a b * b)%Z.
Proof.
  intros Hb. unfold ApiHelpers.ceil_div.
  pose proof (Z.div_mod (- a) b ltac:(lia)) as Hd.
  pose proof (Z.mod_pos_bound (- a) b Hb) as Hm.
  nia.
Qed.

(** X17. For a positive page size and a non-negative item count,
    [createPaginationInfo] returns a page count that covers all items with
    no page to spare, says there is a next page exactly when items remain
    after the current page, and offers [currentPage + 1] and
    [currentPage - 1] exactly when there is a next and a previous page. *)
Theorem pagination_info_covers_items (currentPage limit totalItems : Z) :
  (0 < limit)%Z →
  (0 ≤ totalItems)%Z →
  ∃ p, ApiHelpers.createPaginationInfo currentPage limit totalItems = Some p
       ∧ ((ApiHelpers.totalPages p - 1) * limit < totalItems
          ≤ ApiHelpers.totalPages p * limit)%Z
       ∧ (0 ≤ ApiHelpers.totalPages p)%Z
       ∧ (ApiHelpers.hasNextPage p = true ↔ (currentPage * limit < totalItems)%Z)
       ∧ (ApiHelpers.hasPrevPage p = true ↔ (1 < currentPage)%Z)
       ∧ ApiHelpers.nextPage p
         = (if ApiHelpers.hasNextPage p then Some (currentPage + 1)%Z else None)
       ∧ ApiHelpers.prevPage p
         = (if ApiHelpers.hasPrevPage p then Some (currentPage - 1)%Z else None).
Proof.
  intros Hl Ht. unfold ApiHelpers.createPaginationInfo.
  destruct (Z.eqb_spec limit 0) as [->|_]; [lia|].
  eexists. split; [reflexivity|]. cbn.
  pose proof (ceil_div_bounds totalItems limit Hl) as Hb.
  set (q := ApiHelpers.ceil_div totalItems limit) in *.
  split; [exact Hb|]. split; [nia|]. split; [|split; [|split; reflexivity]].
  - rewrite Z.ltb_lt. split; intros H; nia.
  - apply Z.ltb_lt.
Qed.

Lemma pagination_info_covers_items_witness :
  ∃ p, ApiHelpers.createPaginationInfo 2 24 49 = Some p
       ∧ ApiHelpers.totalPages p = 3%Z ∧ ApiHelpers.hasNextPage p = true.
Proof.
  destruct (pagination_info_covers_items 2 24 49 ltac:(lia) ltac:(lia))
    as (p & Hp & _).
  exists p. split; [exact Hp|].
  vm_compute in Hp. injection Hp as <-. split; reflexivity.
Defined.

(** X18. Whatever the query says and whatever [parseInt] makes of it, an
    infinity or [NaN] included, the page size [getPaginationParams] returns
    is an integer between 1 and 500, or [NaN] when [parseInt] gave [NaN];
    a requested size between 1 and 500 is kept.  The page is an integer of
    at least 1, or [NaN] or [Infinity] when [parseInt] gave that. *)
Theorem pagination_params_bounds
    (parseInt : string → ApiHelpers.Num)
    (minus times : ApiHelpers.Num → ApiHelpers.Num → ApiHelpers.Num)
    (searchParams : list (string * string)) :
  let r := ApiHelpers.getPaginationParams parseInt minus times searchParams in
  let requestedPage :=
    parseInt (ApiHelpers.or_default (ApiHelpers.get "page" searchParams) "1") in
  let requestedLimit :=
    parseInt (ApiHelpers.or_default (ApiHelpers.get "limit" searchParams) "24") in
  match ApiHelpers.limit r with
  | ApiHelpers.Int l => (1 ≤ l ≤ 500)%Z
  | ApiHelpers.NaN => requestedLimit = ApiHelpers.NaN
  | _ => False
  end
  ∧ (∀ z, requestedLimit = ApiHelpers.Int z → (1 ≤ z ≤ 500)%Z →
          ApiHelpers.limit r = ApiHelpers.Int z)
  ∧ match ApiHelpers.page r with
    | ApiHelpers.Int p => (1 ≤ p)%Z
    | ApiHelpers.NaN => requestedPage = ApiHelpers.NaN
    | ApiHelpers.Infinity => requestedPage = ApiHelpers.Infinity
    | ApiHelpers.NegInfinity => False
    end.
Proof.
  unfold ApiHelpers.getPaginationParams.
  cbn [ApiHelpers.limit ApiHelpers.page].
  split; [|split].
  - destruct (parseInt (ApiHelpers.or_default (ApiHelpers.get "limit" _) "24"));
      cbn; try reflexivity; lia.
  - intros z -> Hz. cbn. f_equal. lia.
  - destruct (parseInt (ApiHelpers.or_default (ApiHelpers.get "page" _) "1"));
      cbn; try reflexivity; lia.
Qed.

(** ** Sorting and filters *)

(** X19. [getSortParams] sorts by a whitelisted field or by the default
    one, never by anything else the query asks for; a whitelisted request
    is honoured; the direction is 1 or -1, and it is 1 for [asc] and -1 for
    [desc]. *)
Theorem sort_params_whitelist
    (searchParams : list (string * string)) (allowedFields : list string)
    (defaultSort defaultOrder : string) :
  let r := ApiHelpers.getSortParams searchParams allowedFields defaultSort
             defaultOrder in
  (r.1 ∈ allowedFields ∨ r.1 = defaultSort)
  ∧ (r.2 = 1%Z ∨ r.2 = (-1)%Z)
  ∧ (∀ v, ApiHelpers.get "sortBy" searchParams = Some v → v ≠ "" →
          v ∈ allowedFields → r.1 = v)
  ∧ (∀ v, ApiHelpers.get "sortBy" searchParams = Some v →
          v ∉ allowedFields → r.1 = defaultSort)
  ∧ (ApiHelpers.get "sortOrder" searchParams = Some "asc" → r.2 = 1%Z)
  ∧ (ApiHelpers.get "sortOrder" searchParams = Some "desc" → r.2 = (-1)%Z).
Proof.
  unfold ApiHelpers.getSortParams. cbn [fst snd].
  split; [|split; [|split; [|split; [|split]]]].
  - case_bool_decide; [left; assumption|right; reflexivity].
  - destruct (String.eqb _ "asc"); [left|right]; reflexivity.
  - intros v Hv Hne Hin. rewrite Hv. unfold ApiHelpers.or_default.
    destruct (String.eqb_spec v ""); [contradiction|].
    case_bool_decide; [reflexivity|contradiction].
  - intros v Hv Hnin. rewrite Hv. unfold ApiHelpers.or_default.
    destruct (String.eqb_spec v ""); case_bool_decide; try reflexivity;
      try contradiction.
  - intros ->. reflexivity.
  - intros ->. reflexivity.
Qed.





(** ** Error responses and the authentication wrapper *)




(** X22. The handler wrapped by [withAuth] runs only for a request that
    [authenticateUser] resolved without error to a user whose role is among
    the required ones (any user when none is required), and then the
    wrapper returns what the handler returns; every other request gets a
    failure body, status 401 when no user was established and 403 when the
    user's role is not allowed, whatever the handler would have done. *)
Theorem with_auth_gate
    {User H : Type} (role : User → string) (handler : User → H)
    (requiredRoles : list string) (now : string) (auth : ApiHelpers.Auth User) :
  let permitted u := requiredRoles = [] ∨ role u ∈ requiredRoles in
  match ApiHelpers.withAuth role handler requiredRoles now auth with
  | inr r =>
      ∃ u, ApiHelpers.user auth = Some u
           ∧ truthy (ApiHelpers.auth_error auth) = false
           ∧ permitted u
           ∧ r = handler u
  | inl (body, status) =>
      ApiHelpers.success body = false
      ∧ ApiHelpers.statusCode body = status
      ∧ (status = 401
         ∧ (truthy (ApiHelpers.auth_error auth) = true
            ∨ ApiHelpers.user auth = None)
         ∨ status = 403
           ∧ ∃ u, ApiHelpers.user auth = Some u ∧ ¬ permitted u)
  end.
Proof.
  intros permitted. unfold ApiHelpers.withAuth, ApiHelpers.createErrorResponse.
  destruct (truthy (ApiHelpers.auth_error auth)) eqn:Et.
  { cbn. repeat split. left. split; [reflexivity|left; reflexivity]. }
  destruct (ApiHelpers.user auth) as [u|] eqn:Eu.
  2: { cbn. repeat split. left. split; [reflexivity|right; reflexivity]. }
  destruct requiredRoles as [|r0 rs].
  { cbn. exists u. repeat split. left. reflexivity. }
  cbn [length Nat.ltb Nat.leb andb]. case_bool_decide as Hr; cbn.
  - exists u. repeat split. right. exact Hr.
  - repeat split. right. split; [reflexivity|]. exists u. split; [reflexivity|].
    intros [Hnil|Hin]; [discriminate|contradiction].
Qed.

(** ** [sanitizeUser] *)



(** ** The attempt counter *)

Lemma open_attempts cfg id w :
  reconnectAttempts (world_of (step cfg (SourceOpen id) w)) = 0
  ∨ reconnectAttempts (world_of (step cfg (SourceOpen id) w))
    = reconnectAttempts w.
Proof.
  unfold step, onopen. unfold_m.
  destruct (sources w !! id) as [[]|]; try (right; reflexivity).
  left. destruct (onConnectionChange cfg), (enableToasts cfg); reflexivity.
Qed.

Lemma error_attempts cfg id fatal w :
  reconnectAttempts (world_of (step cfg (SourceError id fatal) w))
  = if delivers_error (SourceError id fatal) w && autoReconnect cfg
       && (reconnectAttempts w <? maxReconnectAttempts)%nat
    then S (reconnectAttempts w) else reconnectAttempts w.
Proof.
  unfold delivers_error, step, onerror, setTimeout. unfold_m.
  destruct (sources w !! id) as [[]|]; try reflexivity;
    destruct (autoReconnect cfg), (onConnectionChange cfg), (enableToasts cfg);
    simpl; destruct (reconnectAttempts w <? maxReconnectAttempts)%nat;
    reflexivity.
Qed.

Lemma step_attempts_bounded cfg st w :
  (reconnectAttempts w ≤ maxReconnectAttempts)%nat →
  (reconnectAttempts (world_of (step cfg st w)) ≤ maxReconnectAttempts)%nat.
Proof.
  intros Hb. destruct (is_open_step st) eqn:Ho.
  - destruct st; try discriminate.
    destruct (open_attempts cfg id w) as [-> | ->]; [lia|exact Hb].
  - destruct (delivers_error st w) eqn:Hd.
    + destruct st; try discriminate. rewrite error_attempts.
      destruct (_ && _ && _) eqn:E; [|exact Hb].
      apply andb_prop in E as [_ E]. apply Nat.ltb_lt in E. lia.
    + destruct (step_leaves_backoff cfg st w Ho Hd) as [-> _]. exact Hb.
Qed.

(** X24. The attempt counter of a session never exceeds five: whatever
    happens to a mounted hook (failures, opens, timers, calls of the
    returned functions, in any order), [reconnectAttempts] stays between 0
    and [maxReconnectAttempts]. *)
Theorem attempts_never_exceed_max
    (cfg : Config) (steps : list Step) (supported : bool) (perm : Permission) :
  (reconnectAttempts (world_of (run cfg steps (initial supported perm)))
   ≤ maxReconnectAttempts)%nat.
Proof.
  assert (H : ∀ w, (reconnectAttempts w ≤ maxReconnectAttempts)%nat →
                   (reconnectAttempts (world_of (run cfg steps w))
                    ≤ maxReconnectAttempts)%nat).
  { induction steps as [|st rest IH]; intros w Hw; [exact Hw|].
    rewrite run_cons_world. apply IH, step_attempts_bounded, Hw. }
  apply H. unfold maxReconnectAttempts. simpl. lia.
Qed.

(** ** The aggregator's merged tracking data *)












(** ** The tracking data held, and its timestamp *)

Lemma step_held_data cfg st w :
  trackingData (world_of (step cfg st w))
  = default (trackingData w) (delivers_update st w).
Proof.
  destruct (is_update_step st) eqn:Hu.
  - destruct st as [ | | | | | | id parsed now | | | | ]; try discriminate.
    destruct parsed as [[]|]; try discriminate.
    unfold delivers_update, step. rewrite world_of_bind.
    cbn [get fst snd world_of].
    destruct (sources w !! id) as [[]|]; try reflexivity.
    apply onmessage_update_data.
  - rewrite (non_update_keeps_data cfg st Hu w).
    destruct st as [ | | | | | | id parsed now | | | | ]; try reflexivity.
    destruct parsed as [[]|]; try reflexivity; discriminate.
Qed.

Lemma held_latest_received cfg steps :
  ∀ w, held cfg steps w = latest_received cfg steps w (trackingData w).
Proof.
  induction steps as [|st rest IH]; intros w; [reflexivity|].
  cbn [held latest_received]. rewrite IH, step_held_data. reflexivity.
Qed.

(** C6, as the code has it.  The hook stores the payload of each
    [tracking_update] as it arrives and compares nothing: after every step
    a session holds the payload of the latest [tracking_update] delivered
    so far, as it was received; so in a session that starts with no
    tracking data, when the payloads arrive with non-decreasing
    [lastUpdated], the tracking data held never goes back in time. *)
Theorem lastUpdated_follows_payloads
    (cfg : Config) (steps : list Step) (w : World) :
  held cfg steps w = latest_received cfg steps w (trackingData w)
  ∧ (trackingData w = None →
     StronglySorted not_before (payloads steps) →
     lastUpdated_monotone (held cfg steps w)).
Proof.
  split; [apply held_latest_received|].
  intros Hn Hs. apply held_sorted; [exact Hs|]. intros a Ha. congruence.
Qed.

Lemma lastUpdated_follows_payloads_witness :
  let first := sample_update "Mumbai" "2024-01-01T10:00:00.000Z" in
  let second := sample_update "Pune" "2024-01-02T10:00:00.000Z" in
  let h := held (defaults (Some "order-1") None)
             [Mount; SourceOpen 0;
              SourceMessage 0 (Some (EvTrackingUpdate (Some first))) 1000;
              SourceMessage 0 (Some EvHeartbeat) 2000;
              SourceMessage 0 (Some (EvTrackingUpdate (Some second))) 3000]
             (initial true PermDefault) in
  h = [None; None; Some first; Some first; Some second]
  ∧ lastUpdated_monotone h.
Proof.
  intros first second h.
  assert (Hs : StronglySorted not_before [first; second])
    by (repeat constructor).
  destruct (lastUpdated_follows_payloads (defaults (Some "order-1") None)
              [Mount; SourceOpen 0;
               SourceMessage 0 (Some (EvTrackingUpdate (Some first))) 1000;
               SourceMessage 0 (Some EvHeartbeat) 2000;
               SourceMessage 0 (Some (EvTrackingUpdate (Some second))) 3000]
              (initial true PermDefault)) as [H1 H2].
  split; [|exact (H2 eq_refl Hs)]. unfold h. rewrite H1. vm_compute. reflexivity.
Defined.
